(** * Relational model of [core/models.py]

    The module under verification is a Django model layer: it declares
    tables, their columns, the foreign keys between them and, for each
    foreign key, what happens to the referring rows when the referred row
    is deleted ([on_delete]).  The declarations are embedded as data
    ([table], [row], [field], [relation]); the meaning Django gives to
    them (saving an instance, deleting one through the deletion
    [Collector]) is embedded as functions over a finite map from primary
    keys to rows. *)

From Stdlib Require Import ZArith.
From Stdlib Require Import Floats.SpecFloat.
From stdpp Require Import gmap strings list fin_maps pretty.

Local Open Scope Z_scope.

(** ** Column types *)

(** [IntegerField] and the [AutoField] primary key. *)
Abbreviation integer := Z (only parsing).
(** [DateTimeField]: a point in time, kept as a timestamp. *)
Abbreviation datetime := Z (only parsing).
(** [FloatField]: an IEEE 754 value.  The model layer stores it and never
    computes with it. *)
Abbreviation float := spec_float (only parsing).

(** ** Tables

    One table per model class of application [core], named as Django
    names them, plus the table Django generates for the many-to-many
    field [Conta.caixas]. *)

Inductive table :=
| core_usuario
| core_restaurante
| core_garcom
| core_caixa
| core_cozinha
| core_gerente
| core_mesa
| core_cliente
| core_cardapio
| core_categoria
| core_itemcardapio
| core_conta
| core_conta_caixas
| core_pedido
| core_itempedido
| core_pagamento
| core_pagamentodinheiro
| core_pagamentocartao
| core_pagamentocheque.

#[global] Instance table_eq_dec : EqDecision table.
Proof. solve_decision. Defined.

Definition table_code (t : table) : nat :=
  match t with
  | core_usuario => 0 | core_restaurante => 1 | core_garcom => 2
  | core_caixa => 3 | core_cozinha => 4 | core_gerente => 5
  | core_mesa => 6 | core_cliente => 7 | core_cardapio => 8
  | core_categoria => 9 | core_itemcardapio => 10 | core_conta => 11
  | core_conta_caixas => 12 | core_pedido => 13 | core_itempedido => 14
  | core_pagamento => 15 | core_pagamentodinheiro => 16
  | core_pagamentocartao => 17 | core_pagamentocheque => 18
  end%nat.

Definition table_decode (n : nat) : table :=
  match n with
  | 0 => core_usuario | 1 => core_restaurante | 2 => core_garcom
  | 3 => core_caixa | 4 => core_cozinha | 5 => core_gerente
  | 6 => core_mesa | 7 => core_cliente | 8 => core_cardapio
  | 9 => core_categoria | 10 => core_itemcardapio | 11 => core_conta
  | 12 => core_conta_caixas | 13 => core_pedido | 14 => core_itempedido
  | 15 => core_pagamento | 16 => core_pagamentodinheiro
  | 17 => core_pagamentocartao | _ => core_pagamentocheque
  end%nat.

#[global] Instance table_countable : Countable table.
Proof. apply (inj_countable' table_code table_decode). by intros []. Defined.

(** ** Rows

    The columns of each table, in the order the class declares them.  A
    table of a subclass ([Garcom(Usuario)], [PagamentoCartao(Pagamento)],
    ...) holds the columns the subclass adds; its primary key is the
    parent link ([usuario_ptr], [pagamento_ptr]) and so is not a column
    of the row but the key the row is stored under. *)

Inductive row :=
| Usuario_row (nome login senha : string)
| Restaurante_row (nome : string)
| Garcom_row (restaurante : integer)
| Caixa_row
| Cozinha_row
| Gerente_row
| Mesa_row (numero : integer) (disponivel : bool) (restaurante garcom : integer)
| Cliente_row (nome : string) (hora_chegada : datetime)
    (hora_saida : option datetime)
| Cardapio_row (gerente : integer)
| Categoria_row (nome : string) (categoria_pai : option integer)
| ItemCardapio_row (nome ingredientes : string) (preco : float)
    (disponivel_na_cozinha : bool) (cardapio categoria : integer)
| Conta_row (nome : string) (mesa : integer)
| Conta_caixas_row (conta caixa : integer)
| Pedido_row (numero : integer) (horario_pedido : datetime)
    (horario_entrega : option datetime) (conta cliente cozinha : integer)
| ItemPedido_row (quantidade : float) (pedido item_cardapio : integer)
| Pagamento_row (conta : integer) (valor : float) (data : datetime)
| PagamentoDinheiro_row
| PagamentoCartao_row (nro_transacao : integer)
| PagamentoCheque_row (numero : integer).

(** The table a row belongs to. *)
Definition row_table (r : row) : table :=
  match r with
  | Usuario_row _ _ _ => core_usuario
  | Restaurante_row _ => core_restaurante
  | Garcom_row _ => core_garcom
  | Caixa_row => core_caixa
  | Cozinha_row => core_cozinha
  | Gerente_row => core_gerente
  | Mesa_row _ _ _ _ => core_mesa
  | Cliente_row _ _ _ => core_cliente
  | Cardapio_row _ => core_cardapio
  | Categoria_row _ _ => core_categoria
  | ItemCardapio_row _ _ _ _ _ _ => core_itemcardapio
  | Conta_row _ _ => core_conta
  | Conta_caixas_row _ _ => core_conta_caixas
  | Pedido_row _ _ _ _ _ _ => core_pedido
  | ItemPedido_row _ _ _ => core_itempedido
  | Pagamento_row _ _ _ => core_pagamento
  | PagamentoDinheiro_row => core_pagamentodinheiro
  | PagamentoCartao_row _ => core_pagamentocartao
  | PagamentoCheque_row _ => core_pagamentocheque
  end.

(** ** Foreign keys *)

Inductive on_delete_policy := CASCADE | PROTECT.

#[global] Instance on_delete_policy_eq_dec : EqDecision on_delete_policy.
Proof. solve_decision. Defined.

(** Every [ForeignKey] and [OneToOneField] of the module, the parent links
    Django adds for multi-table inheritance and the two columns of the
    table generated for [Conta.caixas]. *)
Inductive field :=
| Garcom_usuario_ptr
| Garcom_restaurante
| Caixa_usuario_ptr
| Cozinha_usuario_ptr
| Gerente_usuario_ptr
| Mesa_restaurante
| Mesa_garcom
| Cardapio_gerente
| Categoria_categoria_pai
| ItemCardapio_cardapio
| ItemCardapio_categoria
| Conta_mesa
| Conta_caixas_conta
| Conta_caixas_caixa
| Pedido_conta
| Pedido_cliente
| Pedido_cozinha
| ItemPedido_pedido
| ItemPedido_item_cardapio
| Pagamento_conta
| PagamentoDinheiro_pagamento_ptr
| PagamentoCartao_pagamento_ptr
| PagamentoCheque_pagamento_ptr.

#[global] Instance field_eq_dec : EqDecision field.
Proof. solve_decision. Defined.

Definition fields : list field :=
  [ Garcom_usuario_ptr; Garcom_restaurante; Caixa_usuario_ptr;
    Cozinha_usuario_ptr; Gerente_usuario_ptr; Mesa_restaurante; Mesa_garcom;
    Cardapio_gerente; Categoria_categoria_pai; ItemCardapio_cardapio;
    ItemCardapio_categoria; Conta_mesa; Conta_caixas_conta;
    Conta_caixas_caixa; Pedido_conta; Pedido_cliente; Pedido_cozinha;
    ItemPedido_pedido; ItemPedido_item_cardapio; Pagamento_conta;
    PagamentoDinheiro_pagamento_ptr; PagamentoCartao_pagamento_ptr;
    PagamentoCheque_pagamento_ptr ].

Record ForeignKey := {
  fk_model : table;                (* the table that holds the column *)
  fk_to : table;                   (* the table it refers to *)
  fk_on_delete : on_delete_policy;
  fk_unique : bool;                (* OneToOneField or primary key *)
  fk_null : bool;
  fk_parent_link : bool;
}.

Definition ForeignKey_ m t p :=
  {| fk_model := m; fk_to := t; fk_on_delete := p;
     fk_unique := false; fk_null := false; fk_parent_link := false |}.
Definition OneToOneField_ m t p :=
  {| fk_model := m; fk_to := t; fk_on_delete := p;
     fk_unique := true; fk_null := false; fk_parent_link := false |}.
Definition NullableForeignKey_ m t p :=
  {| fk_model := m; fk_to := t; fk_on_delete := p;
     fk_unique := false; fk_null := true; fk_parent_link := false |}.
(** The link of a subclass table to its parent: a one-to-one primary key
    that cascades. *)
Definition ParentLink_ m t :=
  {| fk_model := m; fk_to := t; fk_on_delete := CASCADE;
     fk_unique := true; fk_null := false; fk_parent_link := true |}.

Definition relation (f : field) : ForeignKey :=
  match f with
  | Garcom_usuario_ptr => ParentLink_ core_garcom core_usuario
  | Garcom_restaurante => ForeignKey_ core_garcom core_restaurante PROTECT
  | Caixa_usuario_ptr => ParentLink_ core_caixa core_usuario
  | Cozinha_usuario_ptr => ParentLink_ core_cozinha core_usuario
  | Gerente_usuario_ptr => ParentLink_ core_gerente core_usuario
  | Mesa_restaurante => ForeignKey_ core_mesa core_restaurante CASCADE
  | Mesa_garcom => ForeignKey_ core_mesa core_garcom PROTECT
  | Cardapio_gerente => OneToOneField_ core_cardapio core_gerente PROTECT
  | Categoria_categoria_pai =>
      NullableForeignKey_ core_categoria core_categoria CASCADE
  | ItemCardapio_cardapio =>
      ForeignKey_ core_itemcardapio core_cardapio CASCADE
  | ItemCardapio_categoria =>
      ForeignKey_ core_itemcardapio core_categoria CASCADE
  | Conta_mesa => ForeignKey_ core_conta core_mesa PROTECT
  | Conta_caixas_conta => ForeignKey_ core_conta_caixas core_conta CASCADE
  | Conta_caixas_caixa => ForeignKey_ core_conta_caixas core_caixa CASCADE
  | Pedido_conta => ForeignKey_ core_pedido core_conta CASCADE
  | Pedido_cliente => ForeignKey_ core_pedido core_cliente PROTECT
  | Pedido_cozinha => ForeignKey_ core_pedido core_cozinha PROTECT
  | ItemPedido_pedido => ForeignKey_ core_itempedido core_pedido CASCADE
  | ItemPedido_item_cardapio =>
      ForeignKey_ core_itempedido core_itemcardapio PROTECT
  | Pagamento_conta => OneToOneField_ core_pagamento core_conta CASCADE
  | PagamentoDinheiro_pagamento_ptr =>
      ParentLink_ core_pagamentodinheiro core_pagamento
  | PagamentoCartao_pagamento_ptr =>
      ParentLink_ core_pagamentocartao core_pagamento
  | PagamentoCheque_pagamento_ptr =>
      ParentLink_ core_pagamentocheque core_pagamento
  end.

(** The value of column [f] in row [r] stored under primary key [pk];
    [None] when the row has no such column or the column is null. *)
Definition fk_value (f : field) (pk : integer) (r : row) : option integer :=
  match f, r with
  | Garcom_usuario_ptr, Garcom_row _ => Some pk
  | Garcom_restaurante, Garcom_row restaurante => Some restaurante
  | Caixa_usuario_ptr, Caixa_row => Some pk
  | Cozinha_usuario_ptr, Cozinha_row => Some pk
  | Gerente_usuario_ptr, Gerente_row => Some pk
  | Mesa_restaurante, Mesa_row _ _ restaurante _ => Some restaurante
  | Mesa_garcom, Mesa_row _ _ _ garcom => Some garcom
  | Cardapio_gerente, Cardapio_row gerente => Some gerente
  | Categoria_categoria_pai, Categoria_row _ categoria_pai => categoria_pai
  | ItemCardapio_cardapio, ItemCardapio_row _ _ _ _ cardapio _ => Some cardapio
  | ItemCardapio_categoria, ItemCardapio_row _ _ _ _ _ categoria =>
      Some categoria
  | Conta_mesa, Conta_row _ mesa => Some mesa
  | Conta_caixas_conta, Conta_caixas_row conta _ => Some conta
  | Conta_caixas_caixa, Conta_caixas_row _ caixa => Some caixa
  | Pedido_conta, Pedido_row _ _ _ conta _ _ => Some conta
  | Pedido_cliente, Pedido_row _ _ _ _ cliente _ => Some cliente
  | Pedido_cozinha, Pedido_row _ _ _ _ _ cozinha => Some cozinha
  | ItemPedido_pedido, ItemPedido_row _ pedido _ => Some pedido
  | ItemPedido_item_cardapio, ItemPedido_row _ _ item_cardapio =>
      Some item_cardapio
  | Pagamento_conta, Pagamento_row conta _ _ => Some conta
  | PagamentoDinheiro_pagamento_ptr, PagamentoDinheiro_row => Some pk
  | PagamentoCartao_pagamento_ptr, PagamentoCartao_row _ => Some pk
  | PagamentoCheque_pagamento_ptr, PagamentoCheque_row _ => Some pk
  | _, _ => None
  end.

(** ** Model instances

    What a caller hands to [save]: an object of one of the model classes,
    with the attributes the class declares and, for a subclass, those it
    inherits. *)

Inductive instance :=
| Usuario (nome login senha : string)
| Restaurante (nome : string)
| Garcom (nome login senha : string) (restaurante : integer)
| Caixa (nome login senha : string)
| Cozinha (nome login senha : string)
| Gerente (nome login senha : string)
| Mesa (numero : integer) (disponivel : bool) (restaurante garcom : integer)
| Cliente (nome : string) (hora_chegada : datetime)
    (hora_saida : option datetime)
| Cardapio (gerente : integer)
| Categoria (nome : string) (categoria_pai : option integer)
| ItemCardapio (nome ingredientes : string) (preco : float)
    (disponivel_na_cozinha : bool) (cardapio categoria : integer)
| Conta (nome : string) (mesa : integer)
| Conta_caixas (conta caixa : integer)
| Pedido (numero : integer) (horario_pedido : datetime)
    (horario_entrega : option datetime) (conta cliente cozinha : integer)
| ItemPedido (quantidade : float) (pedido item_cardapio : integer)
| Pagamento (conta : integer) (valor : float) (data : datetime)
| PagamentoDinheiro (conta : integer) (valor : float) (data : datetime)
| PagamentoCartao (conta : integer) (valor : float) (data : datetime)
    (nro_transacao : integer)
| PagamentoCheque (conta : integer) (valor : float) (data : datetime)
    (numero : integer).

(** The rows an instance is stored as, the parent's table first. *)
Definition table_rows (o : instance) : list row :=
  match o with
  | Usuario n l p => [Usuario_row n l p]
  | Restaurante n => [Restaurante_row n]
  | Garcom n l p r => [Usuario_row n l p; Garcom_row r]
  | Caixa n l p => [Usuario_row n l p; Caixa_row]
  | Cozinha n l p => [Usuario_row n l p; Cozinha_row]
  | Gerente n l p => [Usuario_row n l p; Gerente_row]
  | Mesa n d r g => [Mesa_row n d r g]
  | Cliente n c sd => [Cliente_row n c sd]
  | Cardapio g => [Cardapio_row g]
  | Categoria n p => [Categoria_row n p]
  | ItemCardapio n i p d c k => [ItemCardapio_row n i p d c k]
  | Conta n m => [Conta_row n m]
  | Conta_caixas c k => [Conta_caixas_row c k]
  | Pedido n hp he c cl cz => [Pedido_row n hp he c cl cz]
  | ItemPedido q p i => [ItemPedido_row q p i]
  | Pagamento c v d => [Pagamento_row c v d]
  | PagamentoDinheiro c v d => [Pagamento_row c v d; PagamentoDinheiro_row]
  | PagamentoCartao c v d n => [Pagamento_row c v d; PagamentoCartao_row n]
  | PagamentoCheque c v d n => [Pagamento_row c v d; PagamentoCheque_row n]
  end.

(** The table whose key sequence numbers the instance. *)
Definition base_table (o : instance) : table :=
  match table_rows o with
  | r :: _ => row_table r
  | [] => core_usuario
  end.

(** ** The store *)

Abbreviation key := (table * integer)%type.
Abbreviation store := (gmap key row).

Inductive error :=
| UniqueViolation       (* IntegrityError: UNIQUE constraint failed *)
| ForeignKeyViolation   (* IntegrityError: FOREIGN KEY constraint failed *)
| ProtectedError.       (* ProtectedError, a subclass of IntegrityError *)

Inductive result :=
| Return (s : store)
| Raise (e : error).

(** The key a column of a stored row refers to. *)
Definition fk_target (f : field) (k : key) (r : row) : option key :=
  if decide (k.1 = fk_model (relation f))
  then (λ v, (fk_to (relation f), v)) <$> fk_value f k.2 r
  else None.

(** Row [r] under key [k] refers through [f] to one of [objs]. *)
Definition refers_to (f : field) (objs : gset key) (k : key) (r : row) : bool :=
  match fk_target f k r with
  | Some t => bool_decide (t ∈ objs)
  | None => false
  end.

(** The stored objects that refer to one of [objs] through [f]. *)
Definition related_objects (s : store) (f : field) (objs : gset key)
  : gset key :=
  dom (filter (λ kr, refers_to f objs kr.1 kr.2 = true) s).

Definition candidate_relations (p : on_delete_policy) : list field :=
  filter (λ f, fk_on_delete (relation f) = p) fields.

(** The stored objects that refer to one of [objs] through any column. *)
Definition referrers (s : store) (objs : gset key) : gset key :=
  ⋃ ((λ f, related_objects s f objs) <$> fields).

(** ** Saving *)

Module Model.

(** What a row holds in its unique columns: the target of a one-to-one
    column or parent link, the [login] of a [Usuario] ([unique=True]),
    the pair of a many-to-many link. *)
Inductive unique_value :=
| unique_fk (f : field) (target : key)
| unique_login (login : string)
| unique_together (conta caixa : integer).

#[global] Instance unique_value_eq_dec : EqDecision unique_value.
Proof. solve_decision. Defined.

Definition unique_values (k : key) (r : row) : list unique_value :=
  omap (λ f, if fk_unique (relation f)
             then unique_fk f <$> fk_target f k r else None) fields
  ++ match r with
     | Usuario_row _ login _ => [unique_login login]
     | Conta_caixas_row conta caixa => [unique_together conta caixa]
     | _ => []
     end.

(** Two rows that may not both be stored. *)
Definition unique_conflict (k1 : key) (r1 : row) (k2 : key) (r2 : row)
  : Prop :=
  ∃ v, v ∈ unique_values k1 r1 ∧ v ∈ unique_values k2 r2.

#[global] Instance unique_conflict_dec k1 r1 k2 r2 :
  Decision (unique_conflict k1 r1 k2 r2).
Proof.
  refine (cast_if (decide (Exists (λ v, v ∈ unique_values k2 r2)
                             (unique_values k1 r1))));
    unfold unique_conflict; rewrite Exists_exists in *; naive_solver.
Defined.

(** No other stored row conflicts with the row under [k]. *)
Definition unique_ok (s : store) (k : key) : bool :=
  match s !! k with
  | Some r =>
      bool_decide
        (map_Forall (λ k' r', k' = k ∨ ¬ unique_conflict k r k' r') s)
  | None => true
  end.

(** Every column of the row under [k] refers to a stored row. *)
Definition foreign_keys_ok (s : store) (k : key) : bool :=
  match s !! k with
  | Some r =>
      forallb
        (λ f, match fk_target f k r with
              | Some t => bool_decide (t ∈ dom s)
              | None => true
              end) fields
  | None => true
  end.

(** The primary keys in use in a table, and the next one the key
    sequence hands out: one above the largest in use. *)
Definition pks (s : store) (t : table) : list integer :=
  snd <$> filter (λ k : key, k.1 = t) (elements (dom s)).

Definition next_pk (s : store) (t : table) : integer :=
  1 + foldr Z.max 0 (pks s t).

(** [auto_now_add]: the time of the operation replaces [data] when the
    row is inserted, not when it is updated. *)
Definition pre_save (now : datetime) (add : bool) (r : row) : row :=
  match r with
  | Pagamento_row conta valor data =>
      if add then Pagamento_row conta valor now else r
  | _ => r
  end.

(** Update the row under the key, or insert it when there is none. *)
Definition save_table (now : datetime) (pk : integer) (s : store) (r : row)
  : store :=
  let k := (row_table r, pk) in
  let add := match s !! k with None => true | Some _ => false end in
  <[k := pre_save now add r]> s.

(** [o.save()] at time [now], for an instance whose primary key is [pk]
    ([None]: not set, the key sequence of the base table assigns it).
    The parent's row is written before the subclass's; a violated
    constraint raises and leaves the store as it was. *)
Definition save (now : datetime) (pk : option integer) (o : instance)
    (s : store) : result :=
  let i := default (next_pk s (base_table o)) pk in
  let s' := foldl (save_table now i) s (table_rows o) in
  let written := (λ r, (row_table r, i)) <$> table_rows o in
  if negb (forallb (unique_ok s') written) then Raise UniqueViolation
  else if negb (forallb (foreign_keys_ok s') written)
       then Raise ForeignKeyViolation
  else Return s'.

End Model.

(** ** Deleting *)

Module Collector.

(** The parent table of a subclass table. *)
Definition parent (t : table) : option table :=
  match t with
  | core_garcom | core_caixa | core_cozinha | core_gerente =>
      Some core_usuario
  | core_pagamentodinheiro | core_pagamentocartao | core_pagamentocheque =>
      Some core_pagamento
  | _ => None
  end.

(** The parent rows of the collected objects. *)
Definition parent_objs (objs : gset key) : gset key :=
  set_omap (λ k : key, (λ t, (t, k.2)) <$> parent k.1) objs.

(** One round of collection: the objects found so far and the objects
    that refer to them through a cascading column. *)
Definition collect_related (s : store) (objs : gset key) : gset key :=
  objs ∪ ⋃ ((λ f, related_objects s f objs) <$> candidate_relations CASCADE).

(** All objects the deletion of [root] cascades to.  Each round adds
    stored objects only, so as many rounds as there are rows reach the
    set no round adds to. *)
Definition rounds (s : store) (root : key) (n : nat) : gset key :=
  Nat.iter n (collect_related s) {[root]}.

Definition collect (s : store) (root : key) : gset key :=
  rounds s root (size s).

(** The objects that refer to a collected object through a protecting
    column. *)
Definition protected_objects (s : store) (objs : gset key) : gset key :=
  ⋃ ((λ f, related_objects s f objs) <$> candidate_relations PROTECT).

(** The rows removed: the collected objects and their parent rows (the
    relations of a parent row are not followed). *)
Definition data (s : store) (root : key) : gset key :=
  collect s root ∪ parent_objs (collect s root).

Definition delete (s : store) (objs : gset key) : store :=
  filter (λ kr, kr.1 ∉ objs) s.

End Collector.

Module Instance.

(** [o.delete()] for the stored object [root]: collect, refuse when a
    protecting column refers to a collected object, remove the rows, and
    fail (restoring the store) when a remaining row still refers to a
    removed one. *)
Definition delete (root : key) (s : store) : result :=
  if decide (Collector.protected_objects s (Collector.collect s root) = ∅)
  then
    let s' := Collector.delete s (Collector.data s root) in
    if decide (referrers s' (Collector.data s root) = ∅)
    then Return s'
    else Raise ForeignKeyViolation
  else Raise ProtectedError.

End Instance.

(** ** Operations and reachable states *)

Inductive operation :=
| Save (now : datetime) (pk : option integer) (o : instance)
| Delete (k : key).

Definition run (op : operation) (s : store) : result :=
  match op with
  | Save now pk o => Model.save now pk o s
  | Delete k => Instance.delete k s
  end.

(** The store after the operation: unchanged when it raised. *)
Definition state_after (op : operation) (s : store) : store :=
  match run op s with
  | Return s' => s'
  | Raise _ => s
  end.

Inductive reachable : store → Prop :=
| reachable_empty : reachable ∅
| reachable_step s op s' :
    reachable s → run op s = Return s' → reachable s'.

(** ** Cascading

    An object the deletion of [root] cascades to: the root, and every
    stored row that refers through a cascading column to such an object. *)

Inductive cascades (s : store) (root : key) : key → Prop :=
| cascades_root : cascades s root root
| cascades_step k r f t :
    s !! k = Some r →
    fk_on_delete (relation f) = CASCADE →
    fk_target f k r = Some t →
    cascades s root t →
    cascades s root k.

(** ** Cascade rules

    The rules of the specification, as it lists them, parent table to
    child table: Restaurant→Table, Category→subcategory,
    Category→MenuItem, Menu→MenuItem, Bill→Order, Order→OrderLine,
    Bill→Payment. *)
Inductive spec_cascade_rule : table → table → Prop :=
| Restaurant_Table : spec_cascade_rule core_restaurante core_mesa
| Category_subcategory : spec_cascade_rule core_categoria core_categoria
| Category_MenuItem : spec_cascade_rule core_categoria core_itemcardapio
| Menu_MenuItem : spec_cascade_rule core_cardapio core_itemcardapio
| Bill_Order : spec_cascade_rule core_conta core_pedido
| Order_OrderLine : spec_cascade_rule core_pedido core_itempedido
| Bill_Payment : spec_cascade_rule core_conta core_pagamento.

(** The listed rules, and the two the tables of the module add below a
    bill: the row of a payment's subclass goes with the payment, and the
    links of a bill to its cashiers go with the bill. *)
Inductive cascade_rule : table → table → Prop :=
| cascade_listed t c : spec_cascade_rule t c → cascade_rule t c
| cascade_subclass c :
    Collector.parent c = Some core_pagamento → cascade_rule core_pagamento c
| cascade_link : cascade_rule core_conta core_conta_caixas.

(** The rows the rules reach from [root]: the root, and every stored row
    of a child table that refers to a reached row of the parent table. *)
Inductive cascade_closure (rule : table → table → Prop)
    (s : store) (root : key) : key → Prop :=
| closure_root : cascade_closure rule s root root
| closure_child k r f t :
    s !! k = Some r →
    fk_target f k r = Some t →
    rule t.1 k.1 →
    cascade_closure rule s root t →
    cascade_closure rule s root k.

(** The tables whose deletion the rules speak of. *)
Definition cascade_roots : list table :=
  [core_restaurante; core_cardapio; core_categoria; core_conta; core_pedido].

(** The tables a deletion that starts at one of [cascade_roots] reaches. *)
Definition below_cascade_roots (t : table) : bool :=
  match t with
  | core_usuario | core_garcom | core_caixa | core_cozinha | core_gerente
  | core_cliente => false
  | _ => true
  end.

(** ** Reverse accessors

    The [related_name] of a foreign key names the set of rows that refer
    to an object through it. *)

Definition Garcom_mesas (s : store) (garcom : integer) : gset key :=
  related_objects s Mesa_garcom {[(core_garcom, garcom)]}.

Definition Mesa_contas (s : store) (mesa : integer) : gset key :=
  related_objects s Conta_mesa {[(core_mesa, mesa)]}.

Definition ItemCardapio_itens_pedido (s : store) (item : integer) : gset key :=
  related_objects s ItemPedido_item_cardapio {[(core_itemcardapio, item)]}.

Definition Conta_pagamento (s : store) (conta : integer) : gset key :=
  related_objects s Pagamento_conta {[(core_conta, conta)]}.

(** ** Specializations

    The subclass tables of a table, and those that hold a row for a given
    object of the parent class. *)

Definition tables : list table :=
  [ core_usuario; core_restaurante; core_garcom; core_caixa; core_cozinha;
    core_gerente; core_mesa; core_cliente; core_cardapio; core_categoria;
    core_itemcardapio; core_conta; core_conta_caixas; core_pedido;
    core_itempedido; core_pagamento; core_pagamentodinheiro;
    core_pagamentocartao; core_pagamentocheque ].

Definition subclasses (t : table) : list table :=
  filter (λ c, Collector.parent c = Some t) tables.

Definition specializations (s : store) (k : key) : list table :=
  filter (λ c, (c, k.2) ∈ dom s) (subclasses k.1).

(** ** The category tree *)



(** [ancestor s a c]: [a] is the parent of [c], or of its parent, ... *)
Inductive ancestor (s : store) (a : integer) : integer → Prop :=
| ancestor_parent c nome :
    s !! (core_categoria, c) = Some (Categoria_row nome (Some a)) →
    ancestor s a c
| ancestor_step c nome pai :
    s !! (core_categoria, c) = Some (Categoria_row nome (Some pai)) →
    ancestor s a pai →
    ancestor s a c.

(** ** Runs *)

(** The store after a sequence of operations on the empty store. *)
Definition execute (ops : list operation) : store :=
  foldl (λ s op, state_after op s) ∅ ops.

(** A float with an integer value. *)
Definition float_of_Z (z : Z) : float :=
  match z with
  | Z0 => S754_zero false
  | Zpos m => S754_finite false m 0
  | Zneg m => S754_finite true m 0
  end.

(** A restaurant with one server, one table, one bill with one order of
    two burgers, and the staff and menu these need. *)
Definition service : list operation :=
  [ Save 0 None (Restaurante "R1");
    Save 0 None (Garcom "S1" "s1" "pw" 1);
    Save 0 None (Mesa 5 true 1 1);
    Save 0 None (Conta "B1" 1);
    Save 0 None (Cliente "C1" 10 None);
    Save 0 None (Cozinha "K1" "k1" "pw");
    Save 0 None (Pedido 1 11 None 1 1 2);
    Save 0 None (Gerente "G1" "g1" "pw");
    Save 0 None (Cardapio 3);
    Save 0 None (Categoria "Food" None);
    Save 0 None (ItemCardapio "Burger" "bun, beef" (float_of_Z 10) true 1 1);
    Save 0 None (ItemPedido (float_of_Z 2) 1 1) ].

(** ** Consistency of a store *)

(** Every row is stored under a key of its own table. *)
Definition well_typed (s : store) : Prop :=
  ∀ k r, s !! k = Some r → row_table r = k.1.

(** Every foreign key refers to a stored row. *)
Definition fk_consistent (s : store) : Prop :=
  ∀ k r f t, s !! k = Some r → fk_target f k r = Some t → t ∈ dom s.

(** No two rows hold the same value in a unique column. *)
Definition unique_consistent (s : store) : Prop :=
  ∀ k1 r1 k2 r2,
    s !! k1 = Some r1 → s !! k2 = Some r2 → k1 ≠ k2 →
    ¬ Model.unique_conflict k1 r1 k2 r2.

Definition consistent (s : store) : Prop :=
  well_typed s ∧ fk_consistent s ∧ unique_consistent s.

(** The same, with the bill paid by card. *)
Definition paid_service : list operation :=
  service ++ [Save 20 None (PagamentoCartao 1 (float_of_Z 20) 0 4471)].

(** A server who is then also saved as a cashier. *)
Definition server : list operation :=
  [ Save 0 None (Restaurante "R1");
    Save 0 None (Garcom "S1" "s1" "pw" 1) ].



(** "Drinks" with its subcategory "Soft Drinks", and "Drinks" then put
    under "Soft Drinks". *)
Definition drinks : list operation :=
  [ Save 0 None (Categoria "Drinks" None);
    Save 0 None (Categoria "Soft Drinks" (Some 1)) ].


(** The tables a deletion that starts at a bill reaches. *)
Definition below_conta (t : table) : bool :=
  match t with
  | core_conta | core_conta_caixas | core_pedido | core_itempedido
  | core_pagamento | core_pagamentodinheiro | core_pagamentocartao
  | core_pagamentocheque => true
  | _ => false
  end.

(** ** More reverse accessors *)

Definition Restaurante_garcons (s : store) (restaurante : integer) : gset key :=
  related_objects s Garcom_restaurante {[(core_restaurante, restaurante)]}.

Definition Restaurante_mesas (s : store) (restaurante : integer) : gset key :=
  related_objects s Mesa_restaurante {[(core_restaurante, restaurante)]}.

Definition Gerente_cardapio (s : store) (gerente : integer) : gset key :=
  related_objects s Cardapio_gerente {[(core_gerente, gerente)]}.

Definition Cardapio_itens (s : store) (cardapio : integer) : gset key :=
  related_objects s ItemCardapio_cardapio {[(core_cardapio, cardapio)]}.

Definition Cliente_pedidos (s : store) (cliente : integer) : gset key :=
  related_objects s Pedido_cliente {[(core_cliente, cliente)]}.

(** [Pedido.cozinha] declares [related_name='contas']. *)
Definition Cozinha_contas (s : store) (cozinha : integer) : gset key :=
  related_objects s Pedido_cozinha {[(core_cozinha, cozinha)]}.

Definition Pedido_itens (s : store) (pedido : integer) : gset key :=
  related_objects s ItemPedido_pedido {[(core_pedido, pedido)]}.

(** The links of a cashier to bills: the rows of [core_conta_caixas] that
    name the cashier. *)
Definition Caixa_contas (s : store) (caixa : integer) : gset key :=
  related_objects s Conta_caixas_caixa {[(core_caixa, caixa)]}.

(** ** [__str__]

    The text of a stored object, [None] when the object or an object it
    reads is not stored.  Strings are byte strings in UTF-8, integers
    print in decimal.  ([ItemPedido.__str__] and [Pagamento.__str__]
    format a float and are left out.) *)

(** [Usuario.__str__], which the four role classes inherit. *)
Definition Usuario__str__ (s : store) (pk : integer) : option string :=
  match s !! (core_usuario, pk) with
  | Some (Usuario_row nome _ _) => Some nome
  | _ => None
  end.

Definition Restaurante__str__ (s : store) (pk : integer) : option string :=
  match s !! (core_restaurante, pk) with
  | Some (Restaurante_row nome) => Some nome
  | _ => None
  end.

(** [f"Mesa {self.numero} - {self.restaurante.nome}"] *)
Definition Mesa__str__ (s : store) (pk : integer) : option string :=
  match s !! (core_mesa, pk) with
  | Some (Mesa_row numero _ restaurante _) =>
      nome ← Restaurante__str__ s restaurante;
      Some ("Mesa " +:+ pretty numero +:+ " - " +:+ nome)
  | _ => None
  end.

(** [f"Cardápio do gerente {self.gerente.nome}"]: the [Gerente] is read
    from its own table and its [nome] from the [Usuario] it extends. *)
Definition Cardapio__str__ (s : store) (pk : integer) : option string :=
  match s !! (core_cardapio, pk) with
  | Some (Cardapio_row gerente) =>
      match s !! (core_gerente, gerente) with
      | Some Gerente_row =>
          nome ← Usuario__str__ s gerente;
          Some ("Cardápio do gerente " +:+ nome)
      | _ => None
      end
  | _ => None
  end.

(** [f"Conta {self.id} - {self.nome}"] *)
Definition Conta__str__ (s : store) (pk : integer) : option string :=
  match s !! (core_conta, pk) with
  | Some (Conta_row nome _) => Some ("Conta " +:+ pretty pk +:+ " - " +:+ nome)
  | _ => None
  end.

(** [f"Pedido {self.numero}"] *)
Definition Pedido__str__ (s : store) (pk : integer) : option string :=
  match s !! (core_pedido, pk) with
  | Some (Pedido_row numero _ _ _ _ _) => Some ("Pedido " +:+ pretty numero)
  | _ => None
  end.

(** ** More runs *)

(** A manager with a menu. *)
Definition manager_with_menu : list operation :=
  [ Save 0 None (Gerente "G1" "g1" "pw");
    Save 0 None (Cardapio 1) ].

(** A restaurant with one table and a server of another restaurant. *)
Definition restaurant_without_staff : list operation :=
  [ Save 0 None (Restaurante "R1");
    Save 0 None (Restaurante "R2");
    Save 0 None (Garcom "S2" "s2" "pw" 2);
    Save 0 None (Mesa 1 true 1 1) ].

(** A cashier linked to the bill of [service]. *)
Definition service_with_cashier : list operation :=
  service ++
  [ Save 0 None (Caixa "X1" "x1" "pw");
    Save 0 None (Conta_caixas 1 4) ].

(** * Properties *)

(** ** The schema *)

Lemma elem_of_fields f : f ∈ fields.
Proof. destruct f; apply (bool_decide_unpack _); by vm_compute. Qed.

Lemma elem_of_tables t : t ∈ tables.
Proof. destruct t; apply (bool_decide_unpack _); by vm_compute. Qed.


Lemma elem_of_candidate_relations p f :
  f ∈ candidate_relations p ↔ fk_on_delete (relation f) = p.
Proof.
  unfold candidate_relations. rewrite list_elem_of_filter.
  pose proof (elem_of_fields f). tauto.
Qed.

(** The parent of a table is the target of its parent link. *)
Lemma parent_is_parent_link t p :
  Collector.parent t = Some p ↔
  ∃ f, fk_parent_link (relation f) = true ∧
       fk_model (relation f) = t ∧ fk_to (relation f) = p.
Proof.
  split.
  - destruct t; simpl; intros [= <-];
      [ exists Garcom_usuario_ptr | exists Caixa_usuario_ptr
      | exists Cozinha_usuario_ptr | exists Gerente_usuario_ptr
      | exists PagamentoDinheiro_pagamento_ptr
      | exists PagamentoCartao_pagamento_ptr
      | exists PagamentoCheque_pagamento_ptr ]; done.
  - intros (f & Hl & <- & <-). by destruct f.
Qed.

(** A column that is not nullable holds a value in every row of its
    table. *)
Lemma fk_value_not_null f pk r :
  fk_null (relation f) = false →
  row_table r = fk_model (relation f) →
  is_Some (fk_value f pk r).
Proof. destruct f; try done; by destruct r. Qed.

Lemma fk_target_Some f k r t :
  fk_target f k r = Some t ↔
  k.1 = fk_model (relation f) ∧ t.1 = fk_to (relation f) ∧
  fk_value f k.2 r = Some t.2.
Proof.
  unfold fk_target. destruct t as [tt tv]. simpl.
  case_decide as Hm; [|split; [done|tauto]].
  destruct (fk_value f k.2 r) as [v|]; simpl; [|split; [done|by intros (_ & _ & ?)]].
  split; [by intros [= <- <-]|by intros (_ & -> & [= ->])].
Qed.

(** ** Related objects *)

Lemma elem_of_related_objects (s : store) f objs k :
  k ∈ related_objects s f objs ↔
  ∃ r t, s !! k = Some r ∧ fk_target f k r = Some t ∧ t ∈ objs.
Proof.
  unfold related_objects, refers_to. rewrite elem_of_dom. unfold is_Some.
  setoid_rewrite map_lookup_filter_Some. simpl. split.
  - intros (r & Hr & H). destruct (fk_target f k r) as [t|] eqn:Ht; [|done].
    apply bool_decide_eq_true in H. by exists r, t.
  - intros (r & t & Hr & Ht & Hin). exists r. rewrite Ht.
    by rewrite bool_decide_eq_true.
Qed.

Lemma elem_of_referrers (s : store) objs k :
  k ∈ referrers s objs ↔
  ∃ f r t, s !! k = Some r ∧ fk_target f k r = Some t ∧ t ∈ objs.
Proof.
  unfold referrers. rewrite elem_of_union_list. split.
  - intros (X & HX & Hk). apply list_elem_of_fmap in HX as (f & -> & _).
    apply elem_of_related_objects in Hk as (r & t & Hk). by exists f, r, t.
  - intros (f & r & t & H). exists (related_objects s f objs). split.
    + apply (list_elem_of_fmap_2 (λ f, related_objects s f objs)),
        elem_of_fields.
    + apply elem_of_related_objects. by exists r, t.
Qed.

Lemma elem_of_related_by (s : store) p objs k :
  k ∈ ⋃ ((λ f, related_objects s f objs) <$> candidate_relations p) ↔
  ∃ f r t, fk_on_delete (relation f) = p ∧
           s !! k = Some r ∧ fk_target f k r = Some t ∧ t ∈ objs.
Proof.
  rewrite elem_of_union_list. split.
  - intros (X & HX & Hk). apply list_elem_of_fmap in HX as (f & -> & Hf).
    apply elem_of_candidate_relations in Hf.
    apply elem_of_related_objects in Hk as (r & t & Hk). by exists f, r, t.
  - intros (f & r & t & Hp & H). exists (related_objects s f objs). split.
    + by apply (list_elem_of_fmap_2 (λ f, related_objects s f objs)),
        elem_of_candidate_relations.
    + apply elem_of_related_objects. by exists r, t.
Qed.

Lemma related_objects_dom (s : store) f objs :
  related_objects s f objs ⊆ dom s.
Proof.
  intros k Hk. apply elem_of_related_objects in Hk as (r & _ & Hr & _).
  by apply elem_of_dom.
Qed.

(** ** Collection

    [Collector.collect] is the least set that holds the root and is closed
    under "a stored row refers to a member through a cascading column". *)

Section collect.
Context (s : store) (root : key).

#[local] Abbreviation rounds := (Collector.rounds s root).

Lemma elem_of_collect_related objs k :
  k ∈ Collector.collect_related s objs ↔
  k ∈ objs ∨ ∃ f r t, fk_on_delete (relation f) = CASCADE ∧
                      s !! k = Some r ∧ fk_target f k r = Some t ∧ t ∈ objs.
Proof.
  unfold Collector.collect_related.
  by rewrite elem_of_union, elem_of_related_by.
Qed.

Lemma collect_related_extensive objs :
  objs ⊆ Collector.collect_related s objs.
Proof. intros k Hk. apply elem_of_collect_related. by left. Qed.

Lemma collect_related_bound objs :
  objs ⊆ {[root]} ∪ dom s →
  Collector.collect_related s objs ⊆ {[root]} ∪ dom s.
Proof.
  intros Hsub k [Hk|(f & r & t & _ & Hr & _)]%elem_of_collect_related.
  - by apply Hsub.
  - apply elem_of_union_r, elem_of_dom. by exists r.
Qed.

Lemma rounds_bound n : rounds n ⊆ {[root]} ∪ dom s.
Proof.
  induction n as [|n IH]; simpl.
  - apply union_subseteq_l.
  - by apply collect_related_bound.
Qed.

Lemma rounds_root n : root ∈ rounds n.
Proof.
  induction n as [|n IH]; simpl.
  - by apply elem_of_singleton.
  - by apply collect_related_extensive.
Qed.

Lemma rounds_cascades n k : k ∈ rounds n → cascades s root k.
Proof.
  revert k. induction n as [|n IH]; simpl; intros k Hk.
  - apply elem_of_singleton in Hk as ->. constructor.
  - apply elem_of_collect_related in Hk as [Hk|(f & r & t & Hp & Hr & Ht & Hin)].
    + by apply IH.
    + eapply cascades_step; eauto.
Qed.

(** Each round either adds nothing or adds at least one object. *)
Lemma rounds_grow n :
  Collector.collect_related s (rounds n) = rounds n ∨
  (1 + n ≤ size (rounds n))%nat.
Proof.
  induction n as [|n IH].
  - right. change (rounds 0) with ({[root]} : gset key).
    by rewrite size_singleton.
  - destruct (decide (rounds (S n) = rounds n)) as [Heq|Hne].
    + left. by rewrite Heq.
    + right. destruct IH as [Hfix|Hsz]; [done|].
      assert (rounds n ⊂ rounds (S n)) as Hlt%subset_size; [|lia].
      split; [apply collect_related_extensive|].
      intros Hsub. apply Hne. apply set_eq. intros k. split; [apply Hsub|].
      apply collect_related_extensive.
Qed.

Lemma collect_fixpoint :
  Collector.collect_related s (Collector.collect s root)
  = Collector.collect s root.
Proof.
  unfold Collector.collect.
  destruct (rounds_grow (size s)) as [Hfix|Hsz]; [done|].
  destruct (decide (rounds (S (size s)) = rounds (size s))) as [Heq|Hne];
    [done|exfalso].
  assert (rounds (size s) ⊂ rounds (S (size s))) as Hlt%subset_size.
  { split; [apply collect_related_extensive|].
    intros Hsub. apply Hne. apply set_eq. intros k. split; [apply Hsub|].
    apply collect_related_extensive. }
  pose proof (subseteq_size _ _ (rounds_bound (S (size s)))) as Hb.
  rewrite size_union_alt, size_singleton in Hb.
  assert (size (dom s ∖ {[root]}) ≤ size (dom s))%nat as Hd
    by (apply subseteq_size, subseteq_difference_l; done).
  rewrite size_dom in Hd. lia.
Qed.

Lemma elem_of_collect k :
  k ∈ Collector.collect s root ↔ cascades s root k.
Proof.
  split; [apply rounds_cascades|].
  induction 1 as [|k r f t Hr Hp Ht _ IH].
  - apply rounds_root.
  - rewrite <- collect_fixpoint. apply elem_of_collect_related. right.
    by exists f, r, t.
Qed.

Lemma collect_root : root ∈ Collector.collect s root.
Proof. apply rounds_root. Qed.

End collect.

(** ** Deletion *)

Lemma lookup_Collector_delete (s : store) objs k :
  Collector.delete s objs !! k = if decide (k ∈ objs) then None else s !! k.
Proof.
  unfold Collector.delete. case_decide as Hk.
  - apply map_lookup_filter_None. right. intros r _ Hn. by apply Hn.
  - destruct (s !! k) as [r|] eqn:Hr.
    + by apply map_lookup_filter_Some.
    + apply map_lookup_filter_None. by left.
Qed.

Lemma Collector_delete_subseteq (s : store) objs k r :
  Collector.delete s objs !! k = Some r → s !! k = Some r.
Proof. rewrite lookup_Collector_delete. by case_decide. Qed.

Lemma delete_Return (s : store) root :
  Collector.protected_objects s (Collector.collect s root) = ∅ →
  referrers (Collector.delete s (Collector.data s root))
    (Collector.data s root) = ∅ →
  Instance.delete root s
  = Return (Collector.delete s (Collector.data s root)).
Proof. intros Hp Hr. unfold Instance.delete. by rewrite !decide_True. Qed.

Lemma delete_Return_inv (s : store) root s' :
  Instance.delete root s = Return s' →
  s' = Collector.delete s (Collector.data s root) ∧
  Collector.protected_objects s (Collector.collect s root) = ∅ ∧
  referrers s' (Collector.data s root) = ∅.
Proof.
  unfold Instance.delete. repeat case_decide; try done.
  by intros [= <-].
Qed.

(** A protecting column that refers to a collected object stops the
    deletion before any row is removed. *)
Lemma delete_protected (s : store) root k r f t :
  s !! k = Some r →
  fk_on_delete (relation f) = PROTECT →
  fk_target f k r = Some t →
  cascades s root t →
  Instance.delete root s = Raise ProtectedError.
Proof.
  intros Hr Hp Ht Hc. unfold Instance.delete.
  case_decide as He; [exfalso|done].
  assert (k ∈ Collector.protected_objects s (Collector.collect s root)) as Hk.
  { apply elem_of_related_by. exists f, r, t.
    by rewrite elem_of_collect. }
  rewrite He in Hk. by apply not_elem_of_empty in Hk.
Qed.

(** Nothing cascades to a root that no cascading column refers to. *)
Lemma cascades_only_root (s : store) root k :
  (∀ f, fk_on_delete (relation f) = CASCADE → fk_to (relation f) ≠ root.1) →
  cascades s root k → k = root.
Proof.
  intros Hno. induction 1 as [|k r f t Hr Hp Ht _ ->]; [done|].
  apply fk_target_Some in Ht as (_ & Ht & _). by destruct (Hno f).
Qed.

Lemma delete_protected_root (s : store) f root :
  fk_on_delete (relation f) = PROTECT →
  related_objects s f {[root]} ≠ ∅ →
  Instance.delete root s = Raise ProtectedError.
Proof.
  intros Hp [k Hk]%set_choose_L.
  apply elem_of_related_objects in Hk as (r & t & Hr & Ht & ->%elem_of_singleton).
  eapply delete_protected; eauto. constructor.
Qed.

(** Deleting the [Usuario] of a [Garcom] cascades to the [Garcom]. *)
Lemma cascades_Garcom (s : store) pk :
  well_typed s →
  (core_garcom, pk) ∈ dom s →
  cascades s (core_usuario, pk) (core_garcom, pk).
Proof.
  intros Hwt [r Hr]%elem_of_dom. pose proof (Hwt _ _ Hr) as Ht.
  apply (cascades_step s _ _ r Garcom_usuario_ptr (core_usuario, pk));
    [done|done| |constructor].
  by destruct r.
Qed.

(** C4.  Deleting a [Garcom] some [Mesa] refers to, or an [ItemCardapio]
    some [ItemPedido] refers to, raises [ProtectedError] (Django's
    [IntegrityError] for a protected reference) and leaves every row of
    the store as it was; so does deleting the [Garcom] through its
    [Usuario]. *)
Theorem C4_protected_delete_rejected (s : store) (pk : integer) :
  (Garcom_mesas s pk ≠ ∅ →
   run (Delete (core_garcom, pk)) s = Raise ProtectedError ∧
   state_after (Delete (core_garcom, pk)) s = s) ∧
  (ItemCardapio_itens_pedido s pk ≠ ∅ →
   run (Delete (core_itemcardapio, pk)) s = Raise ProtectedError ∧
   state_after (Delete (core_itemcardapio, pk)) s = s) ∧
  (Garcom_mesas s pk ≠ ∅ → well_typed s → (core_garcom, pk) ∈ dom s →
   run (Delete (core_usuario, pk)) s = Raise ProtectedError ∧
   state_after (Delete (core_usuario, pk)) s = s).
Proof.
  unfold state_after. split; [|split].
  - intros Hne. simpl.
    by rewrite (delete_protected_root s Mesa_garcom (core_garcom, pk)
                  eq_refl Hne).
  - intros Hne. simpl.
    by rewrite (delete_protected_root s ItemPedido_item_cardapio
                  (core_itemcardapio, pk) eq_refl Hne).
  - intros [k Hk]%set_choose_L Hwt Hg. simpl.
    apply elem_of_related_objects
      in Hk as (r & t & Hr & Ht & ->%elem_of_singleton).
    erewrite (delete_protected s (core_usuario, pk) k r Mesa_garcom);
      [done|done|done|done|]. by apply cascades_Garcom.
Qed.

(** ** Saving *)

Lemma elem_of_unique_values v k r :
  v ∈ Model.unique_values k r ↔
  (∃ f t, fk_unique (relation f) = true ∧ fk_target f k r = Some t ∧
          v = Model.unique_fk f t) ∨
  (∃ n l p, r = Usuario_row n l p ∧ v = Model.unique_login l) ∨
  (∃ a b, r = Conta_caixas_row a b ∧ v = Model.unique_together a b).
Proof.
  unfold Model.unique_values. rewrite elem_of_app, list_elem_of_omap. split.
  - intros [(f & _ & Hf)|Hv].
    + left. destruct (fk_unique (relation f)) eqn:Hu; [|done].
      destruct (fk_target f k r) as [t|] eqn:Ht; [|done].
      injection Hf as <-. by exists f, t.
    + right. destruct r; try (by apply elem_of_nil in Hv);
        apply list_elem_of_singleton in Hv as ->; [left|right]; eauto.
  - intros [(f & t & Hu & Ht & ->)|[(n & l & p & -> & ->)|(a & b & -> & ->)]].
    + left. exists f. split; [apply elem_of_fields|]. by rewrite Hu, Ht.
    + right. by apply list_elem_of_singleton.
    + right. by apply list_elem_of_singleton.
Qed.

Lemma unique_conflict_sym k1 r1 k2 r2 :
  Model.unique_conflict k1 r1 k2 r2 → Model.unique_conflict k2 r2 k1 r1.
Proof. intros (v & H1 & H2). by exists v. Qed.

Lemma unique_ok_true (s : store) k :
  Model.unique_ok s k = true ↔
  ∀ r k' r', s !! k = Some r → s !! k' = Some r' → k' ≠ k →
             ¬ Model.unique_conflict k r k' r'.
Proof.
  unfold Model.unique_ok. destruct (s !! k) as [r|]; [|by split].
  rewrite bool_decide_eq_true, map_Forall_lookup. split.
  - intros H r0 k' r' [= <-] Hr' Hne. by destruct (H k' r' Hr').
  - intros H k' r' Hr'. destruct (decide (k' = k)); [by left|right]. eauto.
Qed.

Lemma foreign_keys_ok_true (s : store) k :
  Model.foreign_keys_ok s k = true ↔
  ∀ r f t, s !! k = Some r → fk_target f k r = Some t → t ∈ dom s.
Proof.
  unfold Model.foreign_keys_ok. destruct (s !! k) as [r|]; [|by split].
  rewrite forallb_forall. split.
  - intros H r0 f t [= <-] Ht.
    specialize (H f (proj1 (list_elem_of_In _ _) (elem_of_fields f))).
    rewrite Ht in H. by apply bool_decide_eq_true in H.
  - intros H f _. destruct (fk_target f k r) as [t|] eqn:Ht; [|done].
    apply bool_decide_eq_true. eauto.
Qed.

(** The key sequence hands out a key that is not in use. *)
Lemma next_pk_above (s : store) t i :
  (t, i) ∈ dom s → i < Model.next_pk s t.
Proof.
  intros Hin. unfold Model.next_pk.
  assert (i ∈ Model.pks s t) as Hi.
  { unfold Model.pks. apply list_elem_of_fmap. exists (t, i). split; [done|].
    apply list_elem_of_filter. split; [done|]. by apply elem_of_elements. }
  revert Hi. generalize (Model.pks s t). intros l.
  induction 1 as [|x y l _ IH]; cbn [foldr]; [|specialize (IH Hin)]; lia.
Qed.

Lemma next_pk_fresh (s : store) t : s !! (t, Model.next_pk s t) = None.
Proof.
  apply not_elem_of_dom. intros H%next_pk_above. lia.
Qed.

Lemma row_table_pre_save now add r :
  row_table (Model.pre_save now add r) = row_table r.
Proof. by destruct r, add. Qed.

Section save_rows.
Context (now : datetime) (pk : integer).

Lemma save_rows_lookup_ne (rows : list row) (s : store) k :
  k ∉ (λ r, (row_table r, pk)) <$> rows →
  foldl (Model.save_table now pk) s rows !! k = s !! k.
Proof.
  revert s. induction rows as [|r rows IH]; intros s Hk; [done|].
  rewrite fmap_cons, not_elem_of_cons in Hk. destruct Hk as [Hne Hk].
  simpl. rewrite IH by done. unfold Model.save_table.
  by rewrite lookup_insert_ne.
Qed.

Lemma save_rows_lookup (rows : list row) (s : store) k r :
  foldl (Model.save_table now pk) s rows !! k = Some r →
  s !! k = Some r ∨
  (k ∈ (λ r, (row_table r, pk)) <$> rows ∧ row_table r = k.1).
Proof.
  revert s. induction rows as [|r0 rows IH]; intros s Hk; [by left|].
  simpl in Hk. apply IH in Hk as [Hk|[Hk Ht]].
  - unfold Model.save_table in Hk. apply lookup_insert_Some in Hk.
    destruct Hk as [[<- <-]|[_ Hk]]; [right|by left].
    split; [apply list_elem_of_here|]. by rewrite row_table_pre_save.
  - right. split; [|done]. rewrite fmap_cons. by apply list_elem_of_further.
Qed.

Lemma save_rows_lookup_head (rows : list row) (s : store) r :
  (∀ r', r' ∈ rows → row_table r' ≠ row_table r) →
  foldl (Model.save_table now pk) s (r :: rows) !! (row_table r, pk)
  = Some (Model.pre_save now
            (match s !! (row_table r, pk) with None => true | _ => false end)
            r).
Proof.
  intros Hrows. simpl. rewrite save_rows_lookup_ne.
  - unfold Model.save_table. by rewrite lookup_insert_eq.
  - intros (r' & [= Ht] & Hin)%list_elem_of_fmap. by apply (Hrows r').
Qed.

Lemma save_rows_dom (rows : list row) (s : store) :
  dom s ⊆ dom (foldl (Model.save_table now pk) s rows).
Proof.
  revert s. induction rows as [|r rows IH]; intros s; [done|].
  simpl. etrans; [|apply IH]. unfold Model.save_table.
  rewrite dom_insert_L. apply union_subseteq_r.
Qed.

End save_rows.

Lemma save_Return_inv (s s' : store) now pk o i :
  Model.save now pk o s = Return s' →
  i = default (Model.next_pk s (base_table o)) pk →
  s' = foldl (Model.save_table now i) s (table_rows o) ∧
  ∀ k, k ∈ (λ r, (row_table r, i)) <$> table_rows o →
       Model.unique_ok s' k = true ∧ Model.foreign_keys_ok s' k = true.
Proof.
  unfold Model.save. intros H ->.
  destruct (forallb (Model.unique_ok _) _) eqn:Hu; [|done].
  destruct (forallb (Model.foreign_keys_ok _) _) eqn:Hf; [|done].
  simpl in H. injection H as <-. split; [done|]. intros k Hk.
  rewrite forallb_forall in Hu, Hf. apply list_elem_of_In in Hk. auto.
Qed.


(** ** Consistency is preserved *)

Lemma save_consistent (s s' : store) now pk o :
  consistent s → Model.save now pk o s = Return s' → consistent s'.
Proof.
  intros (Hwt & Hfk & Hu) Hs.
  destruct (save_Return_inv _ _ _ _ _ _ Hs eq_refl) as [Heq Hw].
  set (i := default (Model.next_pk s (base_table o)) pk) in *.
  set (written := (λ r, (row_table r, i)) <$> table_rows o) in *.
  subst s'. split; [|split].
  - intros k r Hk. apply save_rows_lookup in Hk as [Hk|[_ Ht]]; [|done].
    by apply Hwt.
  - intros k r f t Hk Ht. destruct (decide (k ∈ written)) as [Hin|Hout].
    + destruct (Hw k Hin) as [_ Hfo]. rewrite foreign_keys_ok_true in Hfo.
      eauto.
    + rewrite save_rows_lookup_ne in Hk by done.
      apply save_rows_dom. eauto.
  - intros k1 r1 k2 r2 H1 H2 Hne Hc.
    destruct (decide (k1 ∈ written)) as [Hin1|Hout1].
    { destruct (Hw k1 Hin1) as [Huo _]. rewrite unique_ok_true in Huo.
      exact (Huo r1 k2 r2 H1 H2 (not_eq_sym Hne) Hc). }
    destruct (decide (k2 ∈ written)) as [Hin2|Hout2].
    { destruct (Hw k2 Hin2) as [Huo _]. rewrite unique_ok_true in Huo.
      exact (Huo r2 k1 r1 H2 H1 Hne (unique_conflict_sym _ _ _ _ Hc)). }
    rewrite save_rows_lookup_ne in H1, H2 by done.
    exact (Hu k1 r1 k2 r2 H1 H2 Hne Hc).
Qed.

Lemma delete_consistent (s s' : store) root :
  consistent s → Instance.delete root s = Return s' → consistent s'.
Proof.
  intros (Hwt & Hfk & Hu) (-> & _ & Href)%delete_Return_inv.
  split; [|split].
  - intros k r Hk%Collector_delete_subseteq. by apply Hwt.
  - intros k r f t Hk Ht.
    pose proof (Collector_delete_subseteq _ _ _ _ Hk) as Hk'.
    pose proof (Hfk k r f t Hk' Ht) as [rt Hrt]%elem_of_dom.
    apply elem_of_dom. exists rt. rewrite lookup_Collector_delete.
    case_decide as Hin; [exfalso|done].
    assert (k ∈ referrers (Collector.delete s (Collector.data s root))
              (Collector.data s root)) as Hr.
    { apply elem_of_referrers. by exists f, r, t. }
    rewrite Href in Hr. by apply not_elem_of_empty in Hr.
  - intros k1 r1 k2 r2 H1%Collector_delete_subseteq
      H2%Collector_delete_subseteq. exact (Hu k1 r1 k2 r2 H1 H2).
Qed.

Lemma consistent_empty : consistent ∅.
Proof. by repeat split; intros ?; intros; simplify_map_eq. Qed.

Lemma reachable_consistent (s : store) : reachable s → consistent s.
Proof.
  induction 1 as [|s op s' _ IH Hrun]; [apply consistent_empty|].
  destruct op; simpl in Hrun.
  - by eapply save_consistent.
  - by eapply delete_consistent.
Qed.

Lemma reachable_state_after (s : store) op :
  reachable s → reachable (state_after op s).
Proof.
  intros Hs. unfold state_after. destruct (run op s) eqn:Hrun; [|done].
  by eapply reachable_step.
Qed.

Lemma reachable_execute ops : reachable (execute ops).
Proof.
  unfold execute. generalize (∅ : store), reachable_empty.
  induction ops as [|op ops IH]; intros s Hs; [done|].
  simpl. by apply IH, reachable_state_after.
Qed.

(** ** Creating one row *)






(** The columns of a row, read off a target it refers to. *)
Ltac fk_cases H :=
  let Hm := fresh "Hm" in
  let Ht := fresh "Ht" in
  let Hv := fresh "Hv" in
  apply fk_target_Some in H as (Hm & Ht & Hv);
  match type of Hv with
  | fk_value ?f _ _ = _ =>
      destruct f; simpl in Hm, Ht, Hv; try discriminate
  end.




(** ** Deleting an object nothing cascades to *)

Lemma collect_only_root (s : store) root :
  (∀ f, fk_on_delete (relation f) = CASCADE → fk_to (relation f) ≠ root.1) →
  Collector.collect s root = {[root]}.
Proof.
  intros Hno. apply set_eq. intros k.
  rewrite elem_of_collect, elem_of_singleton. split.
  - by apply cascades_only_root.
  - intros ->. constructor.
Qed.

Lemma parent_objs_singleton root :
  Collector.parent root.1 = None → Collector.parent_objs {[root]} = ∅.
Proof.
  intros Hp. apply set_eq. intros k. unfold Collector.parent_objs.
  rewrite elem_of_set_omap. split; [|by intros ?%not_elem_of_empty].
  intros (x & ->%elem_of_singleton & Hx). by rewrite Hp in Hx.
Qed.

Lemma Collector_delete_singleton (s : store) root :
  Collector.delete s {[root]} = delete root s.
Proof.
  apply map_eq. intros k. rewrite lookup_Collector_delete.
  case_decide as Hk.
  - apply elem_of_singleton in Hk as ->. by rewrite lookup_delete_eq.
  - rewrite lookup_delete_ne; [done|]. intros ->. by apply Hk, elem_of_singleton.
Qed.

(** C6, as the code has it.  [Conta.mesa] protects: deleting a [Mesa]
    that some [Conta] refers to raises [ProtectedError] and removes
    nothing; deleting a [Mesa] no [Conta] refers to removes that row and
    no other. *)
Theorem C6_mesa_delete_protected_by_contas (s : store) (mesa : integer) :
  run (Delete (core_mesa, mesa)) s =
  if decide (Mesa_contas s mesa = ∅)
  then Return (delete (core_mesa, mesa) s)
  else Raise ProtectedError.
Proof.
  simpl. case_decide as He.
  - assert (Collector.collect s (core_mesa, mesa) = {[(core_mesa, mesa)]})
      as Hc by (apply collect_only_root; by intros []).
    assert (Collector.data s (core_mesa, mesa) = {[(core_mesa, mesa)]})
      as Hd.
    { unfold Collector.data. rewrite Hc, parent_objs_singleton by done.
      apply union_empty_r_L. }
    rewrite delete_Return; rewrite ?Hc, ?Hd.
    + by rewrite Collector_delete_singleton.
    + apply elem_of_equiv_empty_L. intros k Hk.
      apply elem_of_related_by in Hk as (f & r & t & Hp & Hr & Ht & Hin).
      apply elem_of_singleton in Hin as ->.
      assert (k ∈ Mesa_contas s mesa) as Hk; [|by rewrite He in Hk].
      apply elem_of_related_objects. exists r, (core_mesa, mesa).
      split; [done|]. split; [|by apply elem_of_singleton].
      pose proof Ht as (_ & Hto & _)%fk_target_Some. by destruct f.
    + apply elem_of_equiv_empty_L. intros k Hk.
      apply elem_of_referrers in Hk as (f & r & t & Hr & Ht & Hin).
      apply elem_of_singleton in Hin as ->.
      apply Collector_delete_subseteq in Hr.
      assert (k ∈ Mesa_contas s mesa) as Hk; [|by rewrite He in Hk].
      apply elem_of_related_objects. exists r, (core_mesa, mesa).
      split; [done|]. split; [|by apply elem_of_singleton].
      pose proof Ht as (_ & Hto & _)%fk_target_Some. by destruct f.
  - by apply (delete_protected_root s Conta_mesa).
Qed.

(** ** Rows of subclass tables *)




(** ** Payments *)

Lemma unique_values_Pagamento i c v d :
  Model.unique_values (core_pagamento, i) (Pagamento_row c v d)
  = [Model.unique_fk Pagamento_conta (core_conta, c)].
Proof. reflexivity. Qed.

Lemma elem_of_Conta_pagamento (s : store) c k :
  k ∈ Conta_pagamento s c ↔
  ∃ r, s !! k = Some r ∧
       Model.unique_fk Pagamento_conta (core_conta, c)
       ∈ Model.unique_values k r.
Proof.
  unfold Conta_pagamento. rewrite elem_of_related_objects. split.
  - intros (r & t & Hr & Ht & ->%elem_of_singleton). exists r. split; [done|].
    apply elem_of_unique_values. left. by exists Pagamento_conta, (core_conta, c).
  - intros (r & Hr & Hv). exists r, (core_conta, c). split; [done|].
    split; [|by apply elem_of_singleton].
    apply elem_of_unique_values in Hv
      as [(f & t & _ & Hf & [= <- <-])|[(? & ? & ? & _ & ?)|(? & ? & _ & ?)]];
      done.
Qed.


Lemma Conta_pagamento_conflict (s : store) i c v d k' :
  k' ∈ Conta_pagamento s c →
  ∃ r', s !! k' = Some r' ∧
        Model.unique_conflict (core_pagamento, i) (Pagamento_row c v d) k' r'.
Proof.
  intros (r' & Hr' & Hv)%elem_of_Conta_pagamento. exists r'. split; [done|].
  exists (Model.unique_fk Pagamento_conta (core_conta, c)). split; [|done].
  rewrite unique_values_Pagamento. by apply list_elem_of_singleton.
Qed.






Lemma save_Raise_UniqueViolation (s : store) now pk o i k :
  i = default (Model.next_pk s (base_table o)) pk →
  k ∈ (λ r, (row_table r, i)) <$> table_rows o →
  Model.unique_ok (foldl (Model.save_table now i) s (table_rows o)) k = false →
  Model.save now pk o s = Raise UniqueViolation.
Proof.
  intros -> Hk Hu. unfold Model.save.
  destruct (forallb (Model.unique_ok _) _) eqn:Hall; [|done].
  rewrite forallb_forall in Hall. apply list_elem_of_In in Hk.
  rewrite (Hall k Hk) in Hu. done.
Qed.

(** No two payments of one bill in a consistent store. *)
Lemma Conta_pagamento_unique (s : store) conta k1 k2 :
  unique_consistent s →
  k1 ∈ Conta_pagamento s conta → k2 ∈ Conta_pagamento s conta → k1 = k2.
Proof.
  intros Hu (r1 & Hr1 & Hv1)%elem_of_Conta_pagamento
    (r2 & Hr2 & Hv2)%elem_of_Conta_pagamento.
  destruct (decide (k1 = k2)) as [|Hne]; [done|exfalso].
  apply (Hu k1 r1 k2 r2 Hr1 Hr2 Hne).
  by exists (Model.unique_fk Pagamento_conta (core_conta, conta)).
Qed.

(** Saving a new payment, of whatever class, for a bill that has one. *)
Lemma save_second_Pagamento (s : store) now o conta valor data rest :
  Conta_pagamento s conta ≠ ∅ →
  table_rows o = Pagamento_row conta valor data :: rest →
  Model.save now None o s = Raise UniqueViolation.
Proof.
  intros [k' Hk']%set_choose_L Hrows.
  set (i := Model.next_pk s core_pagamento).
  assert (base_table o = core_pagamento) as Hbase
    by (unfold base_table; by rewrite Hrows).
  apply (save_Raise_UniqueViolation s now None o i (core_pagamento, i)).
  { by rewrite Hbase. }
  { rewrite Hrows. apply list_elem_of_here. }
  destruct (Model.unique_ok _ _) eqn:Hu; [exfalso|done].
  rewrite unique_ok_true in Hu.
  destruct (Conta_pagamento_conflict s i conta valor now k' Hk')
    as (r' & Hr' & Hc).
  assert (k'.1 = core_pagamento) as Hk't.
  { apply elem_of_related_objects in Hk' as (? & ? & _ & Ht & _).
    by apply fk_target_Some in Ht as (-> & _). }
  assert (k' ≠ (core_pagamento, i)) as Hne.
  { intros ->. unfold i in Hr'. by rewrite next_pk_fresh in Hr'. }
  assert (∀ r, r ∈ rest → row_table r ≠ core_pagamento) as Hrest.
  { destruct o; try discriminate; injection Hrows as <- <- <- <-;
      intros r Hr; try (by apply elem_of_nil in Hr);
      by apply list_elem_of_singleton in Hr as ->. }
  apply (Hu (Pagamento_row conta valor now) k' r'); [| |done|done].
  - pose proof (save_rows_lookup_head now i rest s
                  (Pagamento_row conta valor data) Hrest) as Hl.
    cbn [row_table] in Hl. rewrite Hrows, Hl.
    unfold i. by rewrite next_pk_fresh.
  - rewrite save_rows_lookup_ne; [done|]. rewrite Hrows.
    intros (r & -> & Hin)%list_elem_of_fmap.
    apply elem_of_cons in Hin as [->|Hin]; [done|].
    by apply (Hrest r).
Qed.

(** C2.  In every reachable state a [Conta] has at most one [Pagamento];
    saving a new payment, of whatever class, for a [Conta] that has one
    raises the store's uniqueness violation (the one-to-one column
    [Pagamento.conta]) and stores nothing. *)
Theorem C2_at_most_one_pagamento_per_conta (s : store) (conta : integer) :
  reachable s →
  (∀ k1 k2, k1 ∈ Conta_pagamento s conta → k2 ∈ Conta_pagamento s conta →
            k1 = k2) ∧
  (∀ now o valor data rest,
     Conta_pagamento s conta ≠ ∅ →
     table_rows o = Pagamento_row conta valor data :: rest →
     run (Save now None o) s = Raise UniqueViolation ∧
     state_after (Save now None o) s = s).
Proof.
  intros (_ & _ & Hu)%reachable_consistent. split.
  - intros k1 k2. by apply Conta_pagamento_unique.
  - intros now o valor data rest Hne Hrows. unfold state_after. simpl.
    by erewrite save_second_Pagamento.
Qed.

(** ** Specializations *)

(** A row of a subclass table has its parent's row under the same key. *)
Lemma child_has_parent (s : store) c p i :
  consistent s →
  Collector.parent c = Some p →
  (c, i) ∈ dom s → (p, i) ∈ dom s.
Proof.
  intros (Hwt & Hfk & _) Hp [r Hr]%elem_of_dom.
  pose proof (Hwt _ _ Hr) as Ht. simpl in Ht.
  apply parent_is_parent_link in Hp as (f & Hl & Hm & Hto).
  apply (Hfk (c, i) r f); [done|]. apply fk_target_Some. simpl.
  split; [done|]. split; [done|].
  subst c. destruct f; try done; by destruct r.
Qed.

Lemma elem_of_specializations (s : store) k c :
  c ∈ specializations s k ↔ Collector.parent c = Some k.1 ∧ (c, k.2) ∈ dom s.
Proof.
  unfold specializations, subclasses. rewrite !list_elem_of_filter.
  pose proof (elem_of_tables c). tauto.
Qed.







(** ** Roles *)




(** ** The category tree *)







(** ** Cascades *)

Lemma cascade_roots_below t :
  t ∈ cascade_roots →
  below_cascade_roots t = true ∧ Collector.parent t = None.
Proof.
  intros Ht. unfold cascade_roots in Ht.
  repeat (apply elem_of_cons in Ht as [->|Ht]; [done|]).
  by apply elem_of_nil in Ht.
Qed.

Lemma cascades_closure (s : store) root k :
  root.1 ∈ cascade_roots →
  cascades s root k →
  cascade_closure cascade_rule s root k ∧ below_cascade_roots k.1 = true.
Proof.
  intros Hroot. induction 1 as [|k r f t Hr Hp Ht _ [IH Hb]].
  - split; [constructor|]. by apply cascade_roots_below.
  - pose proof Ht as (Hm & Hto & _)%fk_target_Some.
    assert (cascade_rule t.1 k.1 ∧ below_cascade_roots k.1 = true) as [Hrule ?].
    { rewrite Hm. rewrite Hto in Hb |- *. clear -Hp Hb.
      destruct f; try done; simpl; split; try done;
        first [by apply cascade_listed; constructor
              |by apply cascade_subclass
              |apply cascade_link]. }
    split; [|done]. by eapply closure_child.
Qed.


(** Below the roots of the rules, the parent row of a collected subclass
    row is collected as well. *)
Lemma parent_objs_collected (s : store) root :
  root.1 ∈ cascade_roots →
  Collector.parent_objs (Collector.collect s root) ⊆ Collector.collect s root.
Proof.
  intros Hroot k' (k & Hk & Hpar)%elem_of_set_omap.
  apply elem_of_collect in Hk. apply elem_of_collect.
  destruct (Collector.parent k.1) as [p|] eqn:Hp; [|done].
  injection Hpar as <-.
  destruct (cascades_closure s root k Hroot Hk) as [_ Hb].
  destruct (cascade_roots_below _ Hroot) as [_ Hnp].
  inversion Hk as [|k0 r f t Hr Hcasc Ht Ht' ]; subst; [congruence|].
  destruct t as [tt tv], k as [kt ki].
  fk_cases Ht; simpl in *; subst kt tt; simpl in Hb, Hp; try discriminate;
    injection Hp as <-; destruct r; try discriminate;
    injection Hv as <-; exact Ht'.
Qed.

Lemma data_collect (s : store) root :
  root.1 ∈ cascade_roots → Collector.data s root = Collector.collect s root.
Proof.
  intros Hroot. unfold Collector.data. apply set_eq. intros k.
  rewrite elem_of_union. split; [|by left].
  intros [?|?]; [done|]. by apply (parent_objs_collected s root).
Qed.



(** * The claims on examples *)

Ltac compute_eq := vm_compute; reflexivity.
Ltac compute_prop := apply (bool_decide_unpack _); vm_compute; exact I.



(** C2 on the paid bill of [paid_service]: a second payment, in cash,
    raises and stores nothing. *)
Lemma C2_witness :
  run (Save 21 None (PagamentoDinheiro 1 (float_of_Z 20) 0))
    (execute paid_service) = Raise UniqueViolation ∧
  state_after (Save 21 None (PagamentoDinheiro 1 (float_of_Z 20) 0))
    (execute paid_service) = execute paid_service.
Proof.
  destruct (C2_at_most_one_pagamento_per_conta (execute paid_service) 1
              (reachable_execute paid_service)) as [_ H].
  apply (H 21 _ (float_of_Z 20) 0 [PagamentoDinheiro_row]).
  - compute_prop.
  - reflexivity.
Defined.




(** C4 on [service]: the server of the table, the burger of the order
    line and the server's [Usuario] cannot be deleted. *)
Lemma C4_witness :
  run (Delete (core_garcom, 1)) (execute service) = Raise ProtectedError ∧
  run (Delete (core_itemcardapio, 1)) (execute service) = Raise ProtectedError ∧
  run (Delete (core_usuario, 1)) (execute service) = Raise ProtectedError.
Proof.
  destruct (C4_protected_delete_rejected (execute service) 1)
    as (Hg & Hi & Hu).
  split; [|split].
  - apply Hg. compute_prop.
  - apply Hi. compute_prop.
  - apply Hu.
    + compute_prop.
    + apply (reachable_consistent _ (reachable_execute service)).
    + compute_prop.
Defined.



(** C6 does not hold of the code: the table of the restaurant has a bill, and
    deleting the table raises and removes neither. *)
Lemma C6_counterexample :
  reachable (execute service) ∧
  Mesa_contas (execute service) 1 = {[(core_conta, 1)]} ∧
  run (Delete (core_mesa, 1)) (execute service) = Raise ProtectedError ∧
  state_after (Delete (core_mesa, 1)) (execute service) = execute service.
Proof.
  split; [apply reachable_execute|]. repeat split; compute_eq.
Qed.







(** * More of the model *)

(** ** Deletions that cannot end in a foreign-key violation *)

(** Once nothing protects the collected objects, no remaining row refers
    to one of them: a remaining referrer would have been collected. *)
Lemma referrers_after_collect (s : store) root :
  Collector.protected_objects s (Collector.collect s root) = ∅ →
  referrers (Collector.delete s (Collector.collect s root))
    (Collector.collect s root) = ∅.
Proof.
  intros Hp. apply elem_of_equiv_empty_L. intros k Hk.
  apply elem_of_referrers in Hk as (f & r & t & Hr & Ht & Hin).
  rewrite lookup_Collector_delete in Hr. case_decide as Hk; [done|].
  destruct (fk_on_delete (relation f)) eqn:Hf.
  - apply Hk. rewrite <- collect_fixpoint. apply elem_of_collect_related.
    right. by exists f, r, t.
  - assert (k ∈ Collector.protected_objects s (Collector.collect s root))
      as Hin'.
    { apply elem_of_related_by. by exists f, r, t. }
    rewrite Hp in Hin'. by apply not_elem_of_empty in Hin'.
Qed.

Lemma delete_of_collect (s : store) root :
  Collector.data s root = Collector.collect s root →
  Instance.delete root s =
  if decide (Collector.protected_objects s (Collector.collect s root) = ∅)
  then Return (Collector.delete s (Collector.collect s root))
  else Raise ProtectedError.
Proof.
  intros Hd. unfold Instance.delete. rewrite Hd.
  case_decide as Hp; [|done].
  by rewrite decide_True by by apply referrers_after_collect.
Qed.

(** X1.  Deleting a [Restaurante], [Cardapio], [Categoria], [Conta] or
    [Pedido] has two outcomes only: [ProtectedError] when a protecting
    column refers to a collected object, and otherwise the store without
    the collected objects.  It never ends in a foreign-key violation. *)
Theorem X1_delete_below_roots_never_dangles (s : store) (root : key) :
  root.1 ∈ cascade_roots →
  run (Delete root) s =
  if decide (Collector.protected_objects s (Collector.collect s root) = ∅)
  then Return (Collector.delete s (Collector.collect s root))
  else Raise ProtectedError.
Proof. intros Hroot. by apply delete_of_collect, data_collect. Qed.

(** X1 on the restaurant of [service], which its server protects. *)
Lemma X1_witness :
  run (Delete (core_restaurante, 1)) (execute service) = Raise ProtectedError.
Proof.
  rewrite (X1_delete_below_roots_never_dangles (execute service)
             (core_restaurante, 1)); [|compute_prop].
  compute_eq.
Defined.

(** ** Bills and orders *)

(** The tables a deletion that starts at a bill reaches. *)
Lemma cascades_below_conta (s : store) root k :
  below_conta root.1 = true → cascades s root k → below_conta k.1 = true.
Proof.
  intros Hroot. induction 1 as [|k r f t Hr Hp Ht _ IH]; [done|].
  apply fk_target_Some in Ht as (-> & Hto & _). rewrite Hto in IH.
  by destruct f.
Qed.

Lemma nothing_protects_below_conta (s : store) root :
  below_conta root.1 = true →
  Collector.protected_objects s (Collector.collect s root) = ∅.
Proof.
  intros Hroot. apply elem_of_equiv_empty_L. intros k Hk.
  apply elem_of_related_by in Hk as (f & r & t & Hp & Hr & Ht & Hin).
  apply elem_of_collect, (cascades_below_conta s root t Hroot) in Hin.
  apply fk_target_Some in Ht as (_ & Hto & _). rewrite Hto in Hin.
  by destruct f.
Qed.

(** X2.  Nothing protects a bill, an order or what is stored below them:
    deleting a [Conta] or a [Pedido] always succeeds. *)
Theorem X2_conta_and_pedido_delete_always_succeeds (s : store) (root : key) :
  root.1 ∈ [core_conta; core_pedido] →
  run (Delete root) s
  = Return (Collector.delete s (Collector.collect s root)).
Proof.
  intros Hroot.
  assert (root.1 ∈ cascade_roots ∧ below_conta root.1 = true) as [Hc Hb].
  { repeat (apply elem_of_cons in Hroot as [->|Hroot];
            [split; [compute_prop|done]|]).
    by apply elem_of_nil in Hroot. }
  simpl. rewrite delete_of_collect by by apply data_collect.
  by rewrite decide_True by by apply nothing_protects_below_conta.
Qed.

(** X2 on the paid bill of [paid_service]: the bill is gone, and so is
    its order. *)
Lemma X2_witness :
  run (Delete (core_conta, 1)) (execute paid_service)
  = Return (Collector.delete (execute paid_service)
              (Collector.collect (execute paid_service) (core_conta, 1))) ∧
  Collector.delete (execute paid_service)
    (Collector.collect (execute paid_service) (core_conta, 1))
    !! (core_pedido, 1) = None.
Proof.
  split.
  - apply X2_conta_and_pedido_delete_always_succeeds. compute_prop.
  - compute_eq.
Defined.

(** ** Parents with one kind of child *)

(** When one cascading column [fc] refers to the root's table and none to
    the table of [fc], the collected objects are the root and the rows
    that refer to it through [fc]. *)
Lemma collect_children (s : store) root fc :
  fk_on_delete (relation fc) = CASCADE →
  (∀ f, fk_on_delete (relation f) = CASCADE →
        fk_to (relation f) = root.1 → f = fc) →
  (∀ f, fk_on_delete (relation f) = CASCADE →
        fk_to (relation f) ≠ fk_model (relation fc)) →
  Collector.collect s root = {[root]} ∪ related_objects s fc {[root]}.
Proof.
  intros Hfc Hone Hleaf. apply set_eq. intros k.
  rewrite elem_of_collect, elem_of_union, elem_of_singleton. split.
  - induction 1 as [|k r f t Hr Hp Ht _ IH]; [by left|]. right.
    pose proof Ht as (_ & Hto & _)%fk_target_Some.
    destruct IH as [->|Hin].
    + rewrite (Hone f Hp (eq_sym Hto)) in Ht.
      apply elem_of_related_objects. exists r, root.
      by rewrite elem_of_singleton.
    + apply elem_of_related_objects in Hin as (? & ? & _ & Hm & _).
      apply fk_target_Some in Hm as (Hm & _). rewrite Hm in Hto.
      by destruct (Hleaf f Hp).
  - intros [->|Hin]; [constructor|].
    apply elem_of_related_objects
      in Hin as (r & t & Hr & Ht & ->%elem_of_singleton).
    by apply (cascades_step s root k r fc root); [| | |constructor].
Qed.

Lemma delete_children (s : store) root fc :
  fk_on_delete (relation fc) = CASCADE →
  (∀ f, fk_on_delete (relation f) = CASCADE →
        fk_to (relation f) = root.1 → f = fc) →
  (∀ f, fk_on_delete (relation f) = CASCADE →
        fk_to (relation f) ≠ fk_model (relation fc)) →
  Collector.parent root.1 = None →
  Collector.parent (fk_model (relation fc)) = None →
  Instance.delete root s =
  if decide (Collector.protected_objects s
               ({[root]} ∪ related_objects s fc {[root]}) = ∅)
  then Return (Collector.delete s ({[root]} ∪ related_objects s fc {[root]}))
  else Raise ProtectedError.
Proof.
  intros Hfc Hone Hleaf Hpr Hpc.
  rewrite <- (collect_children s root fc) by done.
  apply delete_of_collect. unfold Collector.data.
  rewrite (collect_children s root fc) by done.
  assert (Collector.parent_objs ({[root]} ∪ related_objects s fc {[root]})
          = ∅) as ->; [|apply union_empty_r_L].
  apply elem_of_equiv_empty_L. intros k (k0 & Hk0 & Hp)%elem_of_set_omap.
  apply elem_of_union in Hk0 as [->%elem_of_singleton|Hk0].
  - by rewrite Hpr in Hp.
  - apply elem_of_related_objects in Hk0 as (? & ? & _ & Hm & _).
    apply fk_target_Some in Hm as (Hm & _). by rewrite Hm, Hpc in Hp.
Qed.

(** What protects a set of objects, split by the object referred to. *)
Lemma elem_of_protected_objects (s : store) objs k :
  k ∈ Collector.protected_objects s objs ↔
  ∃ f t, fk_on_delete (relation f) = PROTECT ∧ t ∈ objs ∧
         k ∈ related_objects s f {[t]}.
Proof.
  unfold Collector.protected_objects. rewrite elem_of_related_by. split.
  - intros (f & r & t & Hp & Hr & Ht & Hin). exists f, t.
    split; [done|]. split; [done|]. apply elem_of_related_objects.
    exists r, t. by rewrite elem_of_singleton.
  - intros (f & t & Hp & Hin & Hk).
    apply elem_of_related_objects
      in Hk as (r & t' & Hr & Ht & ->%elem_of_singleton).
    by exists f, r, t.
Qed.

Lemma related_objects_table (s : store) f objs k :
  k ∈ related_objects s f objs →
  k.1 = fk_model (relation f) ∧
  ∃ t, t ∈ objs ∧ t.1 = fk_to (relation f) ∧ k ∈ related_objects s f {[t]}.
Proof.
  intros (r & t & Hr & Ht & Hin)%elem_of_related_objects.
  pose proof Ht as (Hm & Hto & _)%fk_target_Some. split; [done|].
  exists t. split; [done|]. split; [done|].
  apply elem_of_related_objects. exists r, t. by rewrite elem_of_singleton.
Qed.

Lemma related_objects_mono (s : store) (A B : gset key) (f : field) k :
  A ⊆ B → k ∈ related_objects s f A → k ∈ related_objects s f B.
Proof.
  intros Hsub (r & t & Hr & Ht & Hin)%elem_of_related_objects.
  apply elem_of_related_objects. exists r, t. auto.
Qed.

(** X3.  Deleting a [Restaurante]: its servers protect it, and so do the
    bills of its tables; when there are neither, the restaurant and its
    tables are removed, and nothing else. *)
Theorem X3_restaurante_delete (s : store) (pk : integer) :
  run (Delete (core_restaurante, pk)) s =
  if decide (Restaurante_garcons s pk = ∅ ∧
             related_objects s Conta_mesa (Restaurante_mesas s pk) = ∅)
  then Return (Collector.delete s
                 ({[(core_restaurante, pk)]} ∪ Restaurante_mesas s pk))
  else Raise ProtectedError.
Proof.
  simpl. rewrite (delete_children s _ Mesa_restaurante);
    [|done|by intros []|by intros []|done|done].
  fold (Restaurante_mesas s pk).
  set (objs := {[(core_restaurante, pk)]} ∪ Restaurante_mesas s pk).
  destruct (decide (Restaurante_garcons s pk = ∅ ∧ _)) as [[Hg Hc]|Hno].
  - rewrite decide_True; [done|]. apply elem_of_equiv_empty_L. intros k.
    rewrite elem_of_protected_objects. intros (f & t & Hp & Hin & Hk).
    apply related_objects_table in Hk as (_ & t' & ->%elem_of_singleton & Hto & Hk).
    apply elem_of_union in Hin as [->%elem_of_singleton|Hin].
    + destruct f; try done. unfold Restaurante_garcons in Hg.
      by rewrite Hg in Hk.
    + pose proof Hin as (Hm & _)%related_objects_table. rewrite Hm in Hto.
      destruct f; try done.
      apply (related_objects_mono s {[t]} (Restaurante_mesas s pk) Conta_mesa)
        in Hk; [by rewrite Hc in Hk|].
      by apply singleton_subseteq_l.
  - rewrite decide_False; [done|]. intros He. apply Hno. split.
    + apply elem_of_equiv_empty_L. intros k Hk.
      assert (k ∈ Collector.protected_objects s objs) as Hin;
        [|by rewrite He in Hin].
      apply elem_of_protected_objects.
      exists Garcom_restaurante, (core_restaurante, pk).
      split; [done|]. split; [|done].
      by apply elem_of_union_l, elem_of_singleton.
    + apply elem_of_equiv_empty_L. intros k Hk.
      assert (k ∈ Collector.protected_objects s objs) as Hin;
        [|by rewrite He in Hin].
      apply related_objects_table in Hk as (_ & t & Ht & _ & Hk).
      apply elem_of_protected_objects. exists Conta_mesa, t.
      split; [done|]. split; [|done]. by apply elem_of_union_r.
Qed.

(** X4.  Deleting a [Cardapio]: the order lines of its items protect it;
    when there are none, the menu and its items are removed, and nothing
    else. *)
Theorem X4_cardapio_delete (s : store) (pk : integer) :
  run (Delete (core_cardapio, pk)) s =
  if decide (related_objects s ItemPedido_item_cardapio (Cardapio_itens s pk)
             = ∅)
  then Return (Collector.delete s
                 ({[(core_cardapio, pk)]} ∪ Cardapio_itens s pk))
  else Raise ProtectedError.
Proof.
  simpl. rewrite (delete_children s _ ItemCardapio_cardapio);
    [|done|by intros []|by intros []|done|done].
  fold (Cardapio_itens s pk).
  set (objs := {[(core_cardapio, pk)]} ∪ Cardapio_itens s pk).
  destruct (decide (related_objects s ItemPedido_item_cardapio _ = ∅))
    as [Hc|Hc].
  - rewrite decide_True; [done|]. apply elem_of_equiv_empty_L. intros k.
    rewrite elem_of_protected_objects. intros (f & t & Hp & Hin & Hk).
    apply related_objects_table in Hk as (_ & t' & ->%elem_of_singleton & Hto & Hk).
    apply elem_of_union in Hin as [->%elem_of_singleton|Hin].
    + by destruct f.
    + pose proof Hin as (Hm & _)%related_objects_table. rewrite Hm in Hto.
      destruct f; try done.
      apply (related_objects_mono s {[t]} (Cardapio_itens s pk)
               ItemPedido_item_cardapio) in Hk; [by rewrite Hc in Hk|].
      by apply singleton_subseteq_l.
  - rewrite decide_False; [done|]. intros He. apply Hc.
    apply elem_of_equiv_empty_L. intros k Hk.
    assert (k ∈ Collector.protected_objects s objs) as Hin;
      [|by rewrite He in Hin].
    apply related_objects_table in Hk as (_ & t & Ht & _ & Hk).
    apply elem_of_protected_objects. exists ItemPedido_item_cardapio, t.
    split; [done|]. split; [|done]. by apply elem_of_union_r.
Qed.

(** ** Objects nothing cascades to *)

(** Deleting an object of a table that one protecting column refers to,
    and no other column. *)
Lemma delete_protected_leaf (s : store) root fp :
  (∀ f, fk_to (relation f) = root.1 → f = fp) →
  fk_on_delete (relation fp) = PROTECT →
  Collector.parent root.1 = None →
  Instance.delete root s =
  if decide (related_objects s fp {[root]} = ∅)
  then Return (delete root s)
  else Raise ProtectedError.
Proof.
  intros Hone Hfp Hpar.
  assert (Collector.collect s root = {[root]}) as Hc.
  { apply collect_only_root. intros f Hf Hto.
    rewrite (Hone f Hto) in Hf. congruence. }
  rewrite delete_of_collect; rewrite ?Hc.
  2:{ unfold Collector.data.
      rewrite Hc, parent_objs_singleton by done. apply union_empty_r_L. }
  rewrite Collector_delete_singleton.
  destruct (decide (related_objects s fp {[root]} = ∅)) as [He|He].
  - rewrite decide_True; [done|]. apply elem_of_equiv_empty_L. intros k.
    rewrite elem_of_protected_objects.
    intros (f & t & Hp & ->%elem_of_singleton & Hk).
    pose proof Hk as (_ & t' & ->%elem_of_singleton & Hto & _)%related_objects_table.
    rewrite (Hone f (eq_sym Hto)), He in Hk. by apply not_elem_of_empty in Hk.
  - rewrite decide_False; [done|]. intros Hp. apply He.
    apply elem_of_equiv_empty_L. intros k Hk.
    assert (k ∈ Collector.protected_objects s {[root]}) as Hin;
      [|by rewrite Hp in Hin].
    apply elem_of_protected_objects. exists fp, root.
    by rewrite elem_of_singleton.
Qed.

(** X5.  Deleting a [Cliente]: the orders of the customer protect it;
    without orders the customer's row is removed, and no other. *)
Theorem X5_cliente_delete (s : store) (pk : integer) :
  run (Delete (core_cliente, pk)) s =
  if decide (Cliente_pedidos s pk = ∅)
  then Return (delete (core_cliente, pk) s)
  else Raise ProtectedError.
Proof.
  apply (delete_protected_leaf s (core_cliente, pk) Pedido_cliente);
    [by intros []|done|done].
Qed.

(** ** Staff *)

(** Deleting a role instance of a [Usuario] that has this role only
    removes the [Usuario] with what is collected. *)
Lemma delete_role (s : store) c pk :
  Collector.parent c = Some core_usuario →
  specializations s (core_usuario, pk) = [c] →
  Collector.parent_objs (Collector.collect s (c, pk)) = {[(core_usuario, pk)]} →
  Instance.delete (c, pk) s =
  if decide (Collector.protected_objects s (Collector.collect s (c, pk)) = ∅)
  then Return (Collector.delete s
                 (Collector.collect s (c, pk) ∪ {[(core_usuario, pk)]}))
  else Raise ProtectedError.
Proof.
  intros Hpar Hspec Hparents. unfold Instance.delete, Collector.data.
  rewrite Hparents. case_decide as Hp; [|done].
  rewrite decide_True; [done|].
  apply elem_of_equiv_empty_L. intros k Hk.
  apply elem_of_referrers in Hk as (f & r & t & Hr & Ht & Hin).
  rewrite lookup_Collector_delete in Hr. case_decide as Hk; [done|].
  apply Hk. apply elem_of_union in Hin as [Hin|Hin];
    [|apply elem_of_singleton in Hin as ->].
  - apply elem_of_union_l.
    destruct (fk_on_delete (relation f)) eqn:Hf.
    + rewrite <- collect_fixpoint. apply elem_of_collect_related.
      right. by exists f, r, t.
    + assert (k ∈ Collector.protected_objects s (Collector.collect s (c, pk)))
        as Hin'.
      { apply elem_of_related_by. by exists f, r, t. }
      rewrite Hp in Hin'. by apply not_elem_of_empty in Hin'.
  - apply elem_of_union_l.
    assert (k = (c, pk)) as ->; [|apply collect_root].
    assert (k.1 ∈ specializations s (core_usuario, pk) ∧ k.2 = pk) as [Hs Hk2].
    { rewrite elem_of_specializations. simpl.
      apply fk_target_Some in Ht as (Hm & Hto & Hv). simpl in *.
      destruct k as [kt ki]. simpl in *.
      destruct f; try done; simpl in *; subst kt;
        (destruct r; try done; injection Hv as ->;
         split; [split; [done|by apply elem_of_dom]|done]). }
    rewrite Hspec in Hs. apply list_elem_of_singleton in Hs.
    destruct k. simpl in *. by subst.
Qed.

Lemma parent_objs_union (A B : gset key) :
  Collector.parent_objs (A ∪ B)
  = Collector.parent_objs A ∪ Collector.parent_objs B.
Proof.
  apply set_eq. intros k. unfold Collector.parent_objs.
  rewrite elem_of_union, !elem_of_set_omap. split.
  - intros (x & [Hx|Hx]%elem_of_union & Hp); [left|right]; by exists x.
  - intros [(x & Hx & Hp)|(x & Hx & Hp)]; exists x; split; try done;
      [by apply elem_of_union_l|by apply elem_of_union_r].
Qed.

Lemma parent_objs_child c p pk :
  Collector.parent c = Some p →
  Collector.parent_objs {[(c, pk)]} = {[(p, pk)]}.
Proof.
  intros Hp. apply set_eq. intros k. unfold Collector.parent_objs.
  rewrite elem_of_set_omap, elem_of_singleton. split.
  - intros (x & ->%elem_of_singleton & Hx). simpl in Hx.
    rewrite Hp in Hx. by injection Hx as <-.
  - intros ->. exists (c, pk). split; [by apply elem_of_singleton|].
    simpl. by rewrite Hp.
Qed.

Lemma parent_objs_related (s : store) (objs : gset key) (f : field) :
  Collector.parent (fk_model (relation f)) = None →
  Collector.parent_objs (related_objects s f objs) = ∅.
Proof.
  intros Hp. apply elem_of_equiv_empty_L.
  intros k (k0 & Hk0 & Hk)%elem_of_set_omap.
  apply related_objects_table in Hk0 as (Hm & _). by rewrite Hm, Hp in Hk.
Qed.

(** X6.  Deleting a [Caixa] whose [Usuario] has no other role always
    succeeds: it removes the cashier, its [Usuario] and its links to
    bills, and every bill stays as it was. *)
Theorem X6_caixa_delete (s : store) (pk : integer) :
  specializations s (core_usuario, pk) = [core_caixa] →
  let objs := {[(core_caixa, pk)]} ∪ Caixa_contas s pk
              ∪ {[(core_usuario, pk)]} in
  run (Delete (core_caixa, pk)) s = Return (Collector.delete s objs) ∧
  ∀ conta, Collector.delete s objs !! (core_conta, conta)
           = s !! (core_conta, conta).
Proof.
  intros Hspec objs. subst objs.
  assert (Collector.collect s (core_caixa, pk)
          = {[(core_caixa, pk)]} ∪ Caixa_contas s pk) as Hc.
  { apply (collect_children s _ Conta_caixas_caixa);
      [done|by intros []|by intros []]. }
  split.
  - simpl. rewrite (delete_role s core_caixa pk); rewrite ?Hc; try done.
    + rewrite decide_True; [done|]. apply elem_of_equiv_empty_L. intros k.
      rewrite elem_of_protected_objects. intros (f & t & Hp & Hin & Hk).
      apply related_objects_table
        in Hk as (_ & t' & ->%elem_of_singleton & Hto & _).
      apply elem_of_union in Hin as [->%elem_of_singleton|Hin].
      * by destruct f.
      * apply related_objects_table in Hin as (Hm & _). rewrite Hm in Hto.
        by destruct f.
    + rewrite parent_objs_union, (parent_objs_child _ core_usuario) by done.
      unfold Caixa_contas. rewrite parent_objs_related by done.
      apply union_empty_r_L.
  - intros conta. rewrite lookup_Collector_delete, decide_False; [done|].
    rewrite !elem_of_union, !elem_of_singleton.
    intros [[[=]|Hin]|[=]].
    by apply related_objects_table in Hin as ([=] & _).
Qed.

(** X6 on the cashier of [service_with_cashier]. *)
Lemma X6_witness :
  run (Delete (core_caixa, 4)) (execute service_with_cashier)
  = Return (execute service).
Proof.
  destruct (X6_caixa_delete (execute service_with_cashier) 4) as [H _];
    [compute_eq|].
  rewrite H. compute_eq.
Defined.

(** Deleting a role instance that one protecting column refers to, of a
    [Usuario] that has this role only. *)
Lemma delete_protected_role (s : store) c fp pk :
  Collector.parent c = Some core_usuario →
  (∀ f, fk_to (relation f) = c → f = fp) →
  fk_on_delete (relation fp) = PROTECT →
  specializations s (core_usuario, pk) = [c] →
  Instance.delete (c, pk) s =
  if decide (related_objects s fp {[(c, pk)]} = ∅)
  then Return (Collector.delete s ({[(c, pk)]} ∪ {[(core_usuario, pk)]}))
  else Raise ProtectedError.
Proof.
  intros Hpar Hone Hfp Hspec.
  assert (Collector.collect s (c, pk) = {[(c, pk)]}) as Hc.
  { apply collect_only_root. intros f Hf Hto.
    rewrite (Hone f Hto) in Hf. congruence. }
  rewrite (delete_role s c pk); rewrite ?Hc; try done;
    [|by apply parent_objs_child].
  destruct (decide (related_objects s fp {[(c, pk)]} = ∅)) as [He|He].
  - rewrite decide_True; [done|]. apply elem_of_equiv_empty_L. intros k.
    rewrite elem_of_protected_objects.
    intros (f & t & Hp & ->%elem_of_singleton & Hk).
    pose proof Hk
      as (_ & t' & ->%elem_of_singleton & Hto & _)%related_objects_table.
    rewrite (Hone f (eq_sym Hto)), He in Hk. by apply not_elem_of_empty in Hk.
  - rewrite decide_False; [done|]. intros Hp. apply He.
    apply elem_of_equiv_empty_L. intros k Hk.
    assert (k ∈ Collector.protected_objects s {[(c, pk)]}) as Hin;
      [|by rewrite Hp in Hin].
    apply elem_of_protected_objects. exists fp, (c, pk).
    by rewrite elem_of_singleton.
Qed.

(** X7.  Deleting a [Garcom], a [Cozinha] or a [Gerente] whose [Usuario]
    has no other role: the tables served, the orders sent to the kitchen
    and the manager's menu protect it; when there are none the role row
    and the [Usuario] row are removed together, and nothing else. *)
Theorem X7_staff_delete (s : store) (pk : integer) :
  (specializations s (core_usuario, pk) = [core_garcom] →
   run (Delete (core_garcom, pk)) s =
   if decide (Garcom_mesas s pk = ∅)
   then Return (Collector.delete s
                  ({[(core_garcom, pk)]} ∪ {[(core_usuario, pk)]}))
   else Raise ProtectedError) ∧
  (specializations s (core_usuario, pk) = [core_cozinha] →
   run (Delete (core_cozinha, pk)) s =
   if decide (Cozinha_contas s pk = ∅)
   then Return (Collector.delete s
                  ({[(core_cozinha, pk)]} ∪ {[(core_usuario, pk)]}))
   else Raise ProtectedError) ∧
  (specializations s (core_usuario, pk) = [core_gerente] →
   run (Delete (core_gerente, pk)) s =
   if decide (Gerente_cardapio s pk = ∅)
   then Return (Collector.delete s
                  ({[(core_gerente, pk)]} ∪ {[(core_usuario, pk)]}))
   else Raise ProtectedError).
Proof.
  split; [|split]; intros Hspec.
  - apply (delete_protected_role s core_garcom Mesa_garcom);
      [done|by intros []|done|done].
  - apply (delete_protected_role s core_cozinha Pedido_cozinha);
      [done|by intros []|done|done].
  - apply (delete_protected_role s core_gerente Cardapio_gerente);
      [done|by intros []|done|done].
Qed.

(** X7 on [manager_with_menu]: the manager cannot be deleted; on [server]:
    the server, who serves no table, is deleted with its [Usuario]. *)
Lemma X7_witness :
  run (Delete (core_gerente, 1)) (execute manager_with_menu)
  = Raise ProtectedError ∧
  run (Delete (core_garcom, 1)) (execute server)
  = Return {[(core_restaurante, 1) := Restaurante_row "R1"]}.
Proof.
  split.
  - destruct (X7_staff_delete (execute manager_with_menu) 1) as (_ & _ & H).
    rewrite H; compute_eq.
  - destruct (X7_staff_delete (execute server) 1) as (H & _).
    rewrite H; compute_eq.
Defined.

(** ** Unique columns *)

(** A new instance whose first row conflicts with a stored row is
    refused. *)
Lemma save_conflict (s : store) now o r rest k' r' :
  table_rows o = r :: rest →
  (∀ x, x ∈ rest → row_table x ≠ row_table r ∧ row_table x ≠ k'.1) →
  s !! k' = Some r' →
  Model.unique_conflict (row_table r, Model.next_pk s (row_table r))
    (Model.pre_save now true r) k' r' →
  Model.save now None o s = Raise UniqueViolation.
Proof.
  intros Hrows Hrest Hr' Hc.
  set (i := Model.next_pk s (row_table r)) in *.
  assert (base_table o = row_table r) as Hbase
    by (unfold base_table; by rewrite Hrows).
  apply (save_Raise_UniqueViolation s now None o i (row_table r, i)).
  { by rewrite Hbase. }
  { rewrite Hrows. apply list_elem_of_here. }
  destruct (Model.unique_ok _ _) eqn:Hu; [exfalso|done].
  rewrite unique_ok_true in Hu.
  assert (k' ≠ (row_table r, i)) as Hne.
  { intros ->. unfold i in Hr'. by rewrite next_pk_fresh in Hr'. }
  apply (Hu (Model.pre_save now true r) k' r'); [| |done|done].
  - rewrite Hrows, save_rows_lookup_head by (intros x Hx; by apply Hrest).
    unfold i. by rewrite next_pk_fresh.
  - rewrite save_rows_lookup_ne; [done|]. rewrite Hrows.
    intros (x & -> & Hin)%list_elem_of_fmap.
    apply elem_of_cons in Hin as [->|Hin]; [done|].
    by apply (Hrest x).
Qed.

(** X8.  [Usuario.login] is unique: in every reachable state two users
    with the same login are the same user, and saving a new user of any
    class under a login that is taken raises the uniqueness violation. *)
Theorem X8_login_unique (s : store) :
  reachable s →
  (∀ k1 k2 nome1 nome2 login senha1 senha2,
     s !! k1 = Some (Usuario_row nome1 login senha1) →
     s !! k2 = Some (Usuario_row nome2 login senha2) →
     k1 = k2) ∧
  (∀ now o nome login senha rest k nome' senha',
     s !! k = Some (Usuario_row nome' login senha') →
     table_rows o = Usuario_row nome login senha :: rest →
     run (Save now None o) s = Raise UniqueViolation).
Proof.
  intros (Hwt & _ & Hu)%reachable_consistent. split.
  - intros k1 k2 nome1 nome2 login senha1 senha2 H1 H2.
    destruct (decide (k1 = k2)) as [|Hne]; [done|exfalso].
    apply (Hu k1 _ k2 _ H1 H2 Hne). exists (Model.unique_login login).
    split; apply elem_of_unique_values; right; left; eauto.
  - intros now o nome login senha rest k nome' senha' Hk Hrows. simpl.
    apply (save_conflict s now o (Usuario_row nome login senha) rest k
             (Usuario_row nome' login senha') Hrows); [|done|].
    + pose proof (Hwt _ _ Hk) as Ht. simpl in Ht. rewrite <- Ht.
      destruct o; try discriminate; injection Hrows as <- <- <- <-;
        intros x Hx; try (by apply elem_of_nil in Hx);
        by apply list_elem_of_singleton in Hx as ->.
    + exists (Model.unique_login login).
      split; apply elem_of_unique_values; right; left; eauto.
Qed.

(** X8 on [server]: a cashier under the server's login is refused. *)
Lemma X8_witness :
  run (Save 0 None (Caixa "X1" "s1" "pw")) (execute server)
  = Raise UniqueViolation.
Proof.
  destruct (X8_login_unique (execute server) (reachable_execute server))
    as [_ H].
  apply (H 0 _ "X1" "s1" "pw" [Caixa_row] (core_usuario, 1) "S1" "pw").
  - compute_eq.
  - reflexivity.
Defined.

(** The referrers through a one-to-one column, by the unique value they
    hold. *)
Lemma elem_of_related_unique (s : store) f t k :
  fk_unique (relation f) = true →
  k ∈ related_objects s f {[t]} ↔
  ∃ r, s !! k = Some r ∧ Model.unique_fk f t ∈ Model.unique_values k r.
Proof.
  intros Hu. rewrite elem_of_related_objects. split.
  - intros (r & t' & Hr & Ht & ->%elem_of_singleton). exists r.
    split; [done|]. apply elem_of_unique_values. left. by exists f, t.
  - intros (r & Hr & Hv). exists r, t. split; [done|].
    split; [|by apply elem_of_singleton].
    apply elem_of_unique_values in Hv
      as [(f' & t' & _ & Hf & [= <- <-])|[(? & ? & ? & _ & ?)|(? & ? & _ & ?)]];
      done.
Qed.

(** X9.  A one-to-one column has at most one referrer: in every
    reachable state a row that refers to an object through
    [Cardapio.gerente] (or [Pagamento.conta], or a parent link) is the
    only one that does. *)
Theorem X9_one_to_one (s : store) (f : field) (t k : key) :
  reachable s →
  fk_unique (relation f) = true →
  k ∈ related_objects s f {[t]} →
  related_objects s f {[t]} = {[k]}.
Proof.
  intros (_ & _ & Hu)%reachable_consistent Hf Hk.
  apply set_eq. intros k'. rewrite elem_of_singleton. split; [|by intros ->].
  intros Hk'.
  apply elem_of_related_unique in Hk as (r & Hr & Hv); [|done].
  apply elem_of_related_unique in Hk' as (r' & Hr' & Hv'); [|done].
  destruct (decide (k' = k)) as [|Hne]; [done|exfalso].
  apply (Hu k' r' k r Hr' Hr Hne). by exists (Model.unique_fk f t).
Qed.

(** X9 on [manager_with_menu]: the manager has the one menu. *)
Lemma X9_witness :
  Gerente_cardapio (execute manager_with_menu) 1 = {[(core_cardapio, 1)]}.
Proof.
  apply (X9_one_to_one (execute manager_with_menu) Cardapio_gerente
           (core_gerente, 1)).
  - apply reachable_execute.
  - reflexivity.
  - compute_prop.
Defined.


(** ** What reachable stores look like *)

(** X11.  Referential integrity: in every reachable state each row is
    stored under a key of its own table, and each foreign key of each row
    refers to a stored row. *)
Theorem X11_no_dangling_reference (s : store) (k t : key) (r : row) (f : field) :
  reachable s →
  s !! k = Some r →
  row_table r = k.1 ∧ (fk_target f k r = Some t → t ∈ dom s).
Proof.
  intros (Hwt & Hfk & _)%reachable_consistent Hr. split; [by apply Hwt|].
  by apply (Hfk k r f t).
Qed.

(** X11 on the table of [service], whose server is stored. *)
Lemma X11_witness :
  row_table (Mesa_row 5 true 1 1) = core_mesa ∧
  (fk_target Mesa_garcom (core_mesa, 1) (Mesa_row 5 true 1 1)
   = Some (core_garcom, 1) →
   (core_garcom, 1) ∈ dom (execute service)).
Proof.
  apply (X11_no_dangling_reference (execute service) (core_mesa, 1)).
  - apply reachable_execute.
  - compute_eq.
Defined.

(** ** What a save writes *)


Lemma table_rows_base o r :
  r ∈ table_rows o →
  row_table r = base_table o ∨
  Collector.parent (row_table r) = Some (base_table o).
Proof.
  destruct o; unfold base_table; simpl; intros Hr;
    repeat (apply elem_of_cons in Hr as [->|Hr]; [by auto|]);
    by apply elem_of_nil in Hr.
Qed.

Section save_rows_written.
Context (now : datetime) (pk : integer).


End save_rows_written.

Lemma save_frame (s s' : store) now pk o k :
  Model.save now pk o s = Return s' →
  k ∉ (λ r, (row_table r, default (Model.next_pk s (base_table o)) pk))
      <$> table_rows o →
  s' !! k = s !! k.
Proof.
  intros Hrun Hk.
  destruct (save_Return_inv s s' now pk o _ Hrun eq_refl) as [-> _].
  by apply save_rows_lookup_ne.
Qed.





(** X14.  Creating an object (no key given) in a consistent store changes
    no stored row: every row of the store is found again, unchanged. *)
Theorem X14_creation_changes_no_row (s s' : store) now o (k : key) (r : row) :
  consistent s →
  run (Save now None o) s = Return s' →
  s !! k = Some r →
  s' !! k = Some r.
Proof.
  intros Hs Hrun Hk.
  rewrite (save_frame s s' now None o k Hrun); [done|]. simpl.
  intros (r0 & -> & Hr0)%list_elem_of_fmap. simpl in Hk.
  assert ((base_table o, Model.next_pk s (base_table o)) ∈ dom s) as Hin.
  { destruct (table_rows_base o r0 Hr0) as [Heq|Hp].
    - rewrite <- Heq at 1. apply elem_of_dom. by exists r.
    - apply (child_has_parent s (row_table r0)); [done|done|].
      apply elem_of_dom. by exists r. }
  apply elem_of_dom in Hin as [? Hin]. by rewrite next_pk_fresh in Hin.
Qed.

(** X14 on [service]: paying the bill leaves the bill as it was. *)
Lemma X14_witness :
  execute paid_service !! (core_conta, 1) = Some (Conta_row "B1" 1).
Proof.
  apply (X14_creation_changes_no_row (execute service) (execute paid_service)
           20 (PagamentoCartao 1 (float_of_Z 20) 0 4471)).
  - apply reachable_consistent, reachable_execute.
  - compute_eq.
  - compute_eq.
Defined.

(** ** What a deletion removes *)

(** X15.  A deletion that returns has removed the object, and its parent
    row when the object is of a subclass; it has created no row and
    changed none. *)
Theorem X15_delete_removes_only (s s' : store) (root : key) :
  run (Delete root) s = Return s' →
  s' !! root = None ∧
  (∀ p, Collector.parent root.1 = Some p → s' !! (p, root.2) = None) ∧
  (∀ k r, s' !! k = Some r → s !! k = Some r).
Proof.
  intros (-> & _ & _)%delete_Return_inv. unfold Collector.data.
  split; [|split].
  - rewrite lookup_Collector_delete, decide_True; [done|].
    apply elem_of_union_l, collect_root.
  - intros p Hp. rewrite lookup_Collector_delete, decide_True; [done|].
    apply elem_of_union_r, elem_of_set_omap. exists root.
    split; [apply collect_root|]. by rewrite Hp.
  - intros k r. apply Collector_delete_subseteq.
Qed.

(** X15 on the server of [server]: its [Usuario] goes with it. *)
Lemma X15_witness :
  state_after (Delete (core_garcom, 1)) (execute server)
    !! (core_usuario, 1) = None.
Proof.
  destruct (X15_delete_removes_only (execute server)
              (state_after (Delete (core_garcom, 1)) (execute server))
              (core_garcom, 1)) as (_ & H & _); [compute_eq|].
  by apply (H core_usuario).
Defined.

(** X16.  Deleting an object that is not stored, of a class with no
    parent, in a consistent store: nothing refers to it, the deletion
    returns and the store is as it was. *)
Theorem X16_delete_missing (s : store) (root : key) :
  consistent s →
  root ∉ dom s →
  Collector.parent root.1 = None →
  run (Delete root) s = Return s.
Proof.
  intros (_ & Hfk & _) Hroot Hpar. simpl.
  assert (∀ f k r, s !! k = Some r → fk_target f k r ≠ Some root) as Hno.
  { intros f k r Hr Ht. by apply Hroot, (Hfk k r f root). }
  assert (Collector.collect s root = {[root]}) as Hc.
  { apply set_eq. intros k. rewrite elem_of_collect, elem_of_singleton.
    split; [|intros ->; constructor].
    induction 1 as [|k r f t Hr Hp Ht _ ->]; [done|]. by destruct (Hno f k r). }
  rewrite delete_of_collect; rewrite ?Hc.
  2:{ unfold Collector.data.
      rewrite Hc, parent_objs_singleton by done. apply union_empty_r_L. }
  rewrite decide_True.
  - rewrite Collector_delete_singleton, delete_id; [done|].
    by apply not_elem_of_dom.
  - apply elem_of_equiv_empty_L. intros k.
    rewrite elem_of_protected_objects.
    intros (f & t & _ & ->%elem_of_singleton & Hk).
    apply elem_of_related_objects
      in Hk as (r & t & Hr & Ht & ->%elem_of_singleton).
    by destruct (Hno f k r).
Qed.

(** X16 on [service], which has no second customer. *)
Lemma X16_witness :
  run (Delete (core_cliente, 2)) (execute service) = Return (execute service).
Proof.
  apply X16_delete_missing.
  - apply reachable_consistent, reachable_execute.
  - compute_prop.
  - reflexivity.
Defined.

(** ** The category tree, deleted *)

Lemma ancestor_cascades (s : store) a c :
  ancestor s a c → cascades s (core_categoria, a) (core_categoria, c).
Proof.
  induction 1 as [c nome Hc|c nome pai Hc _ IH].
  - by apply (cascades_step s _ _ (Categoria_row nome (Some a))
                Categoria_categoria_pai (core_categoria, a));
      [| | |constructor].
  - by apply (cascades_step s _ _ (Categoria_row nome (Some pai))
                Categoria_categoria_pai (core_categoria, pai)).
Qed.

(** X17.  Deleting a [Categoria] removes its whole subtree: every
    category it is an ancestor of, and every item of the category or of
    one of those. *)
Theorem X17_categoria_delete_removes_subtree
    (s s' : store) (pk : integer) :
  run (Delete (core_categoria, pk)) s = Return s' →
  (∀ c, ancestor s pk c → s' !! (core_categoria, c) = None) ∧
  (∀ c i nome ingredientes preco disponivel cardapio,
     c = pk ∨ ancestor s pk c →
     s !! (core_itemcardapio, i)
     = Some (ItemCardapio_row nome ingredientes preco disponivel cardapio c) →
     s' !! (core_itemcardapio, i) = None).
Proof.
  intros (-> & _ & _)%delete_Return_inv. unfold Collector.data. split.
  - intros c Hc%ancestor_cascades.
    rewrite lookup_Collector_delete, decide_True; [done|].
    by apply elem_of_union_l, elem_of_collect.
  - intros c i nome ingredientes preco disponivel cardapio Hc Hi.
    rewrite lookup_Collector_delete, decide_True; [done|].
    apply elem_of_union_l, elem_of_collect.
    apply (cascades_step s _ _
             (ItemCardapio_row nome ingredientes preco disponivel cardapio c)
             ItemCardapio_categoria (core_categoria, c));
      [done|done|done|].
    destruct Hc as [->|Hc]; [constructor|by apply ancestor_cascades].
Qed.

(** X17 on [drinks]: deleting "Drinks" removes "Soft Drinks". *)
Lemma X17_witness :
  state_after (Delete (core_categoria, 1)) (execute drinks)
    !! (core_categoria, 2) = None.
Proof.
  destruct (X17_categoria_delete_removes_subtree (execute drinks)
              (state_after (Delete (core_categoria, 1)) (execute drinks)) 1)
    as [H _]; [compute_eq|].
  apply H. apply (ancestor_parent _ _ 2 "Soft Drinks"). compute_eq.
Defined.

(** ** [__str__] *)

(** X18.  In every reachable state [__str__] is defined for every stored
    user, restaurant, table, menu, bill and order: what it reads of
    related objects ([self.restaurante.nome], [self.gerente.nome]) is
    stored. *)
Theorem X18_str_defined (s : store) (pk : integer) :
  reachable s →
  ((core_usuario, pk) ∈ dom s → is_Some (Usuario__str__ s pk)) ∧
  (∀ role, Collector.parent role = Some core_usuario →
           (role, pk) ∈ dom s → is_Some (Usuario__str__ s pk)) ∧
  ((core_restaurante, pk) ∈ dom s → is_Some (Restaurante__str__ s pk)) ∧
  ((core_mesa, pk) ∈ dom s → is_Some (Mesa__str__ s pk)) ∧
  ((core_cardapio, pk) ∈ dom s → is_Some (Cardapio__str__ s pk)) ∧
  ((core_conta, pk) ∈ dom s → is_Some (Conta__str__ s pk)) ∧
  ((core_pedido, pk) ∈ dom s → is_Some (Pedido__str__ s pk)).
Proof.
  intros Hs%reachable_consistent. pose proof Hs as (Hwt & Hfk & _).
  assert (∀ t i, (t, i) ∈ dom s → ∃ r, s !! (t, i) = Some r ∧ row_table r = t)
    as Hrow.
  { intros t i [r Hr]%elem_of_dom. exists r. split; [done|].
    by apply (Hwt _ _ Hr). }
  assert (∀ i, (core_usuario, i) ∈ dom s → is_Some (Usuario__str__ s i)) as Hu.
  { intros i (r & Hr & Ht)%Hrow. unfold Usuario__str__. rewrite Hr.
    by destruct r. }
  assert (∀ i, (core_restaurante, i) ∈ dom s →
               is_Some (Restaurante__str__ s i)) as Hre.
  { intros i (r & Hr & Ht)%Hrow. unfold Restaurante__str__. rewrite Hr.
    by destruct r. }
  repeat split.
  - apply Hu.
  - intros role Hp Hin. by apply Hu, (child_has_parent s role).
  - apply Hre.
  - intros (r & Hr & Ht)%Hrow. unfold Mesa__str__. rewrite Hr.
    destruct r; try done.
    destruct (Hre restaurante) as [nome Hn]; [|by rewrite Hn].
    by apply (Hfk (core_mesa, pk) _ Mesa_restaurante _ Hr).
  - intros (r & Hr & Ht)%Hrow. unfold Cardapio__str__. rewrite Hr.
    destruct r; try done.
    assert ((core_gerente, gerente) ∈ dom s) as Hg
      by by apply (Hfk (core_cardapio, pk) _ Cardapio_gerente _ Hr).
    pose proof Hg as (rg & Hrg & Htg)%Hrow. rewrite Hrg.
    destruct rg; try done.
    destruct (Hu gerente) as [nome Hn]; [|by rewrite Hn].
    by apply (child_has_parent s core_gerente).
  - intros (r & Hr & Ht)%Hrow. unfold Conta__str__. rewrite Hr.
    by destruct r.
  - intros (r & Hr & Ht)%Hrow. unfold Pedido__str__. rewrite Hr.
    by destruct r.
Qed.

(** X18 on [service] and [manager_with_menu]: the texts of the table and
    of the menu. *)
Lemma X18_witness :
  is_Some (Mesa__str__ (execute service) 1) ∧
  is_Some (Cardapio__str__ (execute manager_with_menu) 1).
Proof.
  split.
  - destruct (X18_str_defined (execute service) 1
                (reachable_execute service)) as (_ & _ & _ & H & _).
    apply H. compute_prop.
  - destruct (X18_str_defined (execute manager_with_menu) 1
                (reachable_execute manager_with_menu))
      as (_ & _ & _ & _ & H & _).
    apply H. compute_prop.
Defined.

(** ** Creating what refers to other objects *)


